(** * SmoothQuant (w8a8) quantized linear layer

    A shallow embedding of
    [aphrodite/modeling/layers/quantization/smoothquant.py]:
    the quantization policy [SmoothQuantConfig], the process-wide kernel
    handle [Int8GEMM] and the linear method [SQLinearMethod], followed by
    the properties of the specification that are settled on them. *)

From Stdlib Require Import ZArith QArith Qcanon List Lia.
From stdpp Require Import base numbers strings list gmap fin_maps.

Set Warnings "-register-all".
Open Scope string_scope.

(** ** Python values and exceptions *)

(** A Python [float]: a finite value, an infinity or a NaN.  Only the
    numeric value matters here ([8.0 == 8] is [True]), so finite floats
    are identified with the rational number they denote. *)
Inductive pyfloat :=
| Finite (q : Qc)
| PosInf
| NegInf
| NaN.

(** The values [json.load] can put into a configuration dictionary
    ([Dict[str, Any]]).  A Python dictionary with string keys is a finite
    map [gmap string _]: the order of its items, on which nothing here
    depends, is not represented. *)
Inductive pyval :=
| PNone
| PBool (b : bool)
| PInt (z : Z)
| PFloat (f : pyfloat)
| PStr (s : string)
| PList (l : list pyval)
| PDict (l : list (string * pyval)).

(** [v == n] for an integer literal [n].  [bool] is a subclass of [int]
    ([True == 1]), a float equals an integer when it denotes the same
    number, and every other type compares unequal to an integer. *)
Definition py_eq_int (v : pyval) (n : Z) : bool :=
  match v with
  | PBool b => bool_decide (Z.b2z b = n)
  | PInt z => bool_decide (z = n)
  | PFloat (Finite q) => bool_decide (q = Q2Qc (inject_Z n))
  | _ => false
  end.

(** [v != n]; on these types [!=] is the negation of [==]. *)
Definition py_ne_int (v : pyval) (n : Z) : bool := negb (py_eq_int v n).

(** [v == s] for a string literal [s]: only a string equals a string. *)
Definition py_eq_str (v : pyval) (s : string) : bool :=
  match v with
  | PStr s' => bool_decide (s' = s)
  | _ => false
  end.

(** [v in [s1, s2, ...]] for a list of string literals: membership by
    [==]. *)
Definition py_in_strs (v : pyval) (l : list string) : bool :=
  existsb (py_eq_str v) l.

(** The [ValueError]s of the policy, told apart by their message.  The
    specification names them UnsupportedBitWidth, EmptyQuantizationMap and
    MissingBitWidthKey. *)
Inductive value_error :=
| UnsupportedBitWidth (got : pyval)
   (* "Currently, only w8a8 quantization is supported for SmoothQuant,
       but got {weight_bits} bits." *)
| EmptyQuantizationMap
   (* "Quant_map for SmoothQuant should not be None or an empty dict. ..." *)
| MissingBitWidthKey (keys : list string).
   (* raised by [get_from_keys] when none of [keys] is present *)

(** Failures of the tensor runtime. *)
Inductive runtime_error :=
| InvalidShapeDimension (d : Z)
| OnlyOneDimensionCanBeInferred
| AmbiguousInferredDimension
| ShapeInvalidForInput (numel : nat)
| ViewNotCompatible.

Inductive exn :=
| ValueError (e : value_error)
| AssertionError            (* [assert bias is None]; UnsupportedBias *)
| KeyError (key : string)
| IndexError
| AttributeError (name : string)
| RuntimeError (e : runtime_error).

Inductive result (A : Type) :=
| Ok (a : A)
| Raise (e : exn).
Arguments Ok {A} a.
Arguments Raise {A} e.

(** ** Quantization policy *)

Module SmoothQuantConfig.

Record t := mk {
  weight_bits : pyval;
  quant_map : option (gmap string pyval)
}.

(** [SmoothQuantConfig.__init__(weight_bits, quant_map)]: the two
    attributes are stored, then validated in this order. *)
Definition __init__ (weight_bits : pyval)
    (quant_map : option (gmap string pyval)) : result t :=
  let self := mk weight_bits quant_map in
  if py_ne_int (SmoothQuantConfig.weight_bits self) 8 then
    Raise (ValueError (UnsupportedBitWidth (SmoothQuantConfig.weight_bits self)))
  else
    match SmoothQuantConfig.quant_map self with
    | None => Raise (ValueError EmptyQuantizationMap)
    | Some m =>
        if bool_decide (m = ∅) then Raise (ValueError EmptyQuantizationMap)
        else Ok self
    end.

Definition get_name (self : t) : string := "smoothquant".

Definition get_min_capability (self : t) : Z := 80.

Definition get_config_filenames : list string :=
  ["quant_config.json"; "quantize_config.json"].

Definition get_scaled_act_names (self : t) : list string := [].

(** Modelled from the spec: the search of
    [QuantizationConfig.get_from_keys] of [base_config.py], which is not
    among the sources, for the first of the given keys that is present
    in the configuration. *)
Fixpoint first_present (config : gmap string pyval) (keys : list string)
    : option pyval :=
  match keys with
  | [] => None
  | key :: keys' =>
      match config !! key with
      | Some v => Some v
      | None => first_present config keys'
      end
  end.

(** Modelled from the spec: [QuantizationConfig.get_from_keys] of
    [base_config.py], which is not among the sources.  It returns the
    value stored under one of the given keys, taking them in the order
    of the list, and raises a [ValueError] when none is present. *)
Definition get_from_keys (config : gmap string pyval) (keys : list string)
    : result pyval :=
  match first_present config keys with
  | Some v => Ok v
  | None => Raise (ValueError (MissingBitWidthKey keys))
  end.

(** A line written to standard output:
    [print(str(e) + " Set weight_bits = 8 by default.")]. *)
Inductive stdout_line :=
| DefaultBitsWarning (e : value_error).

(** One iteration of the loop that builds [quant_map]. *)
Definition keep_granularity (key : string) (value : pyval)
    (quant_map : gmap string pyval) : gmap string pyval :=
  if py_in_strs value ["per-tensor"; "per-token"]
  then <[key := value]> quant_map
  else quant_map.

(** [SmoothQuantConfig.from_config(config)]: what is printed, and the
    policy or the exception that leaves the call. *)
Definition from_config (config : gmap string pyval)
    : list stdout_line * result t :=
  match
    match get_from_keys config ["w_bit"; "bits"] with
    | Ok v => Ok ([], v)
    | Raise (ValueError e) => Ok ([DefaultBitsWarning e], PInt 8)
    | Raise e => Raise e
    end
  with
  | Raise e => ([], Raise e)
  | Ok (out, weight_bits) =>
      let quant_map := map_fold keep_granularity ∅ config in
      (out, __init__ weight_bits (Some quant_map))
  end.

End SmoothQuantConfig.

(** ** Tensor runtime *)

Inductive torch_dtype :=
| torch_int8
| torch_int32
| torch_half
| torch_float32.

(** [torch.float] is an alias of [torch.float32]. *)
Definition torch_float : torch_dtype := torch_float32.

Inductive torch_device :=
| cpu
| cuda.

#[global] Instance torch_dtype_eq_dec : EqDecision torch_dtype.
Proof. solve_decision. Defined.

#[global] Instance torch_device_eq_dec : EqDecision torch_device.
Proof. solve_decision. Defined.

(** A strided tensor: its size, the stride of each dimension and the
    offset of its first element in its storage, its element type and
    device, the attributes the program sets on it, and the storage.  The
    element at index [i1, ..., in] is the entry of the storage at
    [storage_offset + i1 * stride1 + ... + in * striden].  An entry is
    the number it denotes: an [int8] or [int32] entry is an integer, the
    [float32] entry [1.0] is [1]. *)
Record Tensor := mkTensor {
  shape : list nat;
  stride : list nat;
  storage_offset : nat;
  dtype : torch_dtype;
  device : torch_device;
  requires_grad : bool;
  attrs : gmap string Z;
  data : list Qc
}.

(** What the tensor runtime and the native kernel are asked to do. *)
Inductive event :=
| Allocated (size : list nat) (dt : torch_dtype) (dev : torch_device)
| KernelInvoked (handle : nat).

(** The state of the tensor runtime: the requests made so far, oldest
    first, and the contents of memory that was never written
    ([uninit n i] is element [i] of the buffer handed out after [n]
    earlier requests). *)
Record runtime := mkRuntime {
  uninit : nat → nat → Qc;
  trace : list event
}.

Definition log (e : event) (r : runtime) : runtime :=
  mkRuntime (uninit r) (trace r ++ [e]).

(** Computations that use the runtime and may raise. *)
Definition M (A : Type) : Type := runtime → result A * runtime.

Definition ret {A} (a : A) : M A := λ r, (Ok a, r).

Definition raise {A} (e : exn) : M A := λ r, (Raise e, r).

Definition bind {A B} (c : M A) (k : A → M B) : M B :=
  λ r, match c r with
       | (Ok a, r') => k a r'
       | (Raise e, r') => (Raise e, r')
       end.

Definition lift {A} (x : result A) : M A := λ r, (x, r).

Notation "'let*' x ':=' c 'in' k" := (bind c (λ x, k))
  (at level 10, x name, c at level 100, k at level 200, only parsing).

Definition numel (size : list nat) : nat := foldr Nat.mul 1 size.

(** The product of the dimensions, each counted as at least one. *)
Definition padded_numel (size : list nat) : nat :=
  foldr (λ d p, d `max` 1 * p) 1 size.

(** The strides of a freshly allocated tensor of a given size: the last
    one is 1 and each other one is the next stride times the next
    dimension, counted as at least one. *)
Fixpoint contiguous_strides (size : list nat) : list nat :=
  match size with
  | [] => []
  | _ :: rest => padded_numel rest :: contiguous_strides rest
  end.

(** [torch.empty(size, dtype=..., device=...)]: a fresh buffer whose
    contents are whatever the memory held. *)
Definition torch_empty (size : list nat) (dt : torch_dtype)
    (dev : torch_device) : M Tensor :=
  λ r,
    let contents := map (uninit r (length (trace r))) (seq 0 (numel size)) in
    (Ok (mkTensor size (contiguous_strides size) 0 dt dev false ∅ contents),
     log (Allocated size dt dev) r).

(** [torch.tensor(v, dtype=..., device=...)] for a Python number [v]: a
    zero-dimensional tensor holding [v]. *)
Definition torch_tensor (v : Qc) (dt : torch_dtype) (dev : torch_device)
    : M Tensor :=
  λ r, (Ok (mkTensor [] [] 0 dt dev false ∅ [v]),
        log (Allocated [] dt dev) r).

(** [torch.nn.parameter.Parameter(t, requires_grad=...)]. *)
Definition nn_Parameter (t : Tensor) (requires_grad : bool) : Tensor :=
  mkTensor (shape t) (stride t) (storage_offset t) (dtype t) (device t)
    requires_grad (attrs t) (data t).

(** Modelled from the spec: [set_weight_attrs] of
    [aphrodite/modeling/layers/linear.py], which is not among the
    sources.  It tags the tensor with each attribute of the given
    dictionary. *)
Definition set_weight_attrs (weight : Tensor)
    (weight_attrs : list (string * Z)) : Tensor :=
  mkTensor (shape weight) (stride weight) (storage_offset weight)
    (dtype weight) (device weight) (requires_grad weight)
    (foldl (λ a kv, <[kv.1 := kv.2]> a) (attrs weight) weight_attrs)
    (data weight).

(** The first pass of the size inference of [Tensor.view]: the product
    of the given dimensions and the position of the [-1], if any. *)
Fixpoint scan_size (size : list Z) (dim newsize : nat)
    (infer_dim : option nat) : result (nat * option nat) :=
  match size with
  | [] => Ok (newsize, infer_dim)
  | d :: rest =>
      if (d =? -1)%Z then
        match infer_dim with
        | Some _ => Raise (RuntimeError OnlyOneDimensionCanBeInferred)
        | None => scan_size rest (S dim) newsize (Some dim)
        end
      else if (0 <=? d)%Z then
        scan_size rest (S dim) (newsize * Z.to_nat d) infer_dim
      else Raise (RuntimeError (InvalidShapeDimension d))
  end.

(** The size a view gets, as the tensor runtime infers it: the given
    size must account for the [n] elements; a [-1] is replaced by the
    quotient of [n] by the product of the other dimensions, and is
    refused as ambiguous when that product is zero. *)
Definition infer_size (size : list Z) (n : nat) : result (list nat) :=
  match scan_size size 0 1 None with
  | Raise e => Raise e
  | Ok (newsize, infer_dim) =>
      if ((n =? newsize)
          || (bool_decide (is_Some infer_dim) && (0 <? newsize)
              && (n mod newsize =? 0)))%nat
      then
        match infer_dim with
        | Some i =>
            if (newsize =? 0)%nat
            then Raise (RuntimeError AmbiguousInferredDimension)
            else Ok (<[i := n / newsize]> (map Z.to_nat size))
        | None => Ok (map Z.to_nat size)
        end
      else Raise (RuntimeError (ShapeInvalidForInput n))
  end.

(** The inner loop of the stride computation of a view: view
    dimensions, taken from the last one, are given their stride within
    the current chunk of the tensor as long as they fit in it or have
    size 1.  [news] holds the view dimensions not yet placed, last one
    first, and [newstride] the strides found so far. *)
Fixpoint take_view (news : list nat)
    (view_numel tensor_numel chunk_base_stride : nat) (newstride : list nat)
    : list nat * nat * list nat :=
  match news with
  | [] => ([], view_numel, newstride)
  | d :: news' =>
      if ((view_numel <? tensor_numel) || (d =? 1))%nat then
        take_view news' (view_numel * d) tensor_numel chunk_base_stride
          (view_numel * chunk_base_stride :: newstride)
      else (news, view_numel, newstride)
  end.

(** The outer loop: tensor dimensions, taken from the last one ([olds]
    holds sizes and strides, last dimension first), are gathered into
    chunks that lie contiguously in memory; at the end of each chunk the
    view dimensions placed in it must have exactly its number of
    elements. *)
Fixpoint view_chunks (olds : list (nat * nat)) (news : list nat)
    (chunk_base_stride tensor_numel view_numel : nat)
    (newstride : list nat) : option (list nat * list nat) :=
  match olds with
  | [] => Some (news, newstride)
  | (size, _) :: before =>
      let tensor_numel := tensor_numel * size in
      if match before with
         | [] => true
         | (size', stride') :: _ =>
             (negb (size' =? 1)
              && negb (stride' =? tensor_numel * chunk_base_stride))%nat
         end
      then
        let '(news', view_numel', newstride') :=
          take_view news view_numel tensor_numel chunk_base_stride
            newstride in
        if (view_numel' =? tensor_numel)%nat then
          match before with
          | [] => Some (news', newstride')
          | (_, stride') :: _ =>
              view_chunks before news' stride' 1 1 newstride'
          end
        else None
      else
        view_chunks before news chunk_base_stride tensor_numel view_numel
          newstride
  end.

(** The strides a view of size [newshape] gets on a tensor of size
    [oldshape] and strides [oldstride], as the tensor runtime computes
    them; [None] when no strides present the same elements in the same
    order without a copy.  A tensor without elements can always be
    viewed. *)
Definition compute_stride (oldshape oldstride newshape : list nat)
    : option (list nat) :=
  match oldshape with
  | [] => Some (replicate (length newshape) 1)
  | _ :: _ =>
      if (numel oldshape =? 0)%nat then
        if bool_decide (oldshape = newshape) then Some oldstride
        else Some (contiguous_strides newshape)
      else
        match view_chunks (reverse (zip oldshape oldstride))
                (reverse newshape) (default 1 (last oldstride)) 1 1 [] with
        | Some ([], newstride) => Some newstride
        | _ => None
        end
  end.

(** [t.view(size)]: a new tensor object over the same storage, with
    another size and the strides that go with it; a [RuntimeError] when
    the size does not fit or when the strides of [t] do not allow it.
    Attributes set on [t] are not carried over. *)
Definition view (t : Tensor) (size : list Z) : result Tensor :=
  match infer_size size (numel (shape t)) with
  | Raise e => Raise e
  | Ok size' =>
      match compute_stride (shape t) (stride t) size' with
      | None => Raise (RuntimeError ViewNotCompatible)
      | Some stride' =>
          Ok (mkTensor size' stride' (storage_offset t) (dtype t) (device t)
                (requires_grad t) ∅ (data t))
      end
  end.

(** [size[0]], [size[-1]] and [size[:-1]] on a [torch.Size]. *)
Definition size_first (size : list nat) : result nat :=
  match size with
  | d :: _ => Ok d
  | [] => Raise IndexError
  end.

Definition size_last (size : list nat) : result nat :=
  match last size with
  | Some d => Ok d
  | None => Raise IndexError
  end.

Definition size_but_last (size : list nat) : list nat := removelast size.

(** Element [i] of a buffer. *)
Definition entry (buf : list Qc) (i : nat) : Qc := nth i buf 0%Qc.

(** [Σ_{k < K} a k * b k]. *)
Definition dot (K : nat) (a b : nat → Qc) : Qc :=
  foldr (λ k acc, (a k * b k + acc)%Qc) 0%Qc (seq 0 K).

(** The product of an [m × K] matrix with the transpose of an [n × K]
    matrix, all three in row-major order. *)
Definition matmul_nt (m n K : nat) (x w : list Qc) : list Qc :=
  flat_map
    (λ i, map (λ j, dot K (λ k, entry x (i * K + k))
                          (λ k, entry w (j * K + k)))
              (seq 0 n))
    (seq 0 m).

(** An entry that is an integer between [lo] and [hi]. *)
Definition is_int_in (lo hi : Z) (q : Qc) : bool :=
  ((Qden q =? 1)%positive && (lo <=? Qnum q)%Z && (Qnum q <=? hi)%Z).

Definition is_int8 : Qc → bool := is_int_in (-128) 127.

Definition is_int32 : Qc → bool := is_int_in (-2147483648) 2147483647.

(** The strides of the tensor are those of a freshly allocated tensor
    of its size: its elements lie in its storage in row-major order. *)
Definition is_contiguous (t : Tensor) : bool :=
  bool_decide (stride t = contiguous_strides (shape t)).

(** The storage from the first element of the tensor on. *)
Definition from_data_ptr (t : Tensor) : list Qc :=
  drop (storage_offset t) (data t).

(** [buf] with the entries from position [pos] on replaced by [vs]. *)
Definition overwrite (pos : nat) (vs buf : list Qc) : list Qc :=
  take pos buf ++ vs ++ drop (pos + length vs) buf.

(** Modelled from the spec: what the contract of the native kernel
    covers.  The three tensors are dense row-major matrices of sizes
    [m × K], [n × K] and [m × n] on the accelerator; the input and the
    weight hold 8-bit signed integers; the output is a 32-bit buffer and
    no sum overflows it. *)
Definition linear_in_contract (x weight y : Tensor) : bool :=
  match shape x, shape weight, shape y with
  | [m; K], [n; K'], [m'; n'] =>
      bool_decide (K = K') && bool_decide (m = m') && bool_decide (n = n')
      && is_contiguous x && is_contiguous weight && is_contiguous y
      && bool_decide (device x = cuda) && bool_decide (device weight = cuda)
      && bool_decide (device y = cuda)
      && bool_decide (dtype x = torch_int8)
      && bool_decide (dtype weight = torch_int8)
      && bool_decide (dtype y = torch_int32)
      && forallb is_int8 (data x) && forallb is_int8 (data weight)
      && forallb is_int32
           (matmul_nt m n K (from_data_ptr x) (from_data_ptr weight))
  | _, _, _ => false
  end.

(** Modelled from the spec: the storage of the output after the kernel
    has run.  Within the contract it holds
    [output[i, j] = Σ_k input[i, k] * weight[j, k]]; outside it the
    specification promises nothing, and the storage holds whatever
    [garbage] says. *)
Definition linear_result (garbage : nat → Qc) (x weight y : Tensor)
    : list Qc :=
  if linear_in_contract x weight y then
    overwrite (storage_offset y)
      (matmul_nt (nth 0 (shape x) 0) (nth 0 (shape weight) 0)
         (nth 1 (shape x) 0) (from_data_ptr x) (from_data_ptr weight))
      (data y)
  else map garbage (seq 0 (length (data y))).

(** Modelled from the spec: the method [linear_a8_w8_o32_] of the native
    kernel object [ops.I8CUGEMM()] of [aphrodite._C], which is not among
    the sources, by its contract: it fills the output matrix in place.
    The updated output tensor is returned. *)
Definition linear_a8_w8_o32_ (handle : nat) (x weight y : Tensor)
    : M Tensor :=
  λ r,
    (Ok (mkTensor (shape y) (stride y) (storage_offset y) (dtype y)
           (device y) (requires_grad y) (attrs y)
           (linear_result (uninit r (length (trace r))) x weight y)),
     log (KernelInvoked handle) r).

(** ** Kernel handle provider *)

(** The part of the process state the singleton lives in.  Objects and
    native kernel objects are named by the order of their creation. *)
Record process := mkProcess {
  _instance : option nat;        (* the class attribute [Int8GEMM._instance] *)
  _instance_lock : option nat;   (* the thread holding [_instance_lock] *)
  objects : nat;                 (* objects made by [object.__new__] *)
  i8cugemm_of : gmap nat nat;    (* the attribute [i8cugemm] of each object *)
  factory_calls : nat            (* calls of [ops.I8CUGEMM()] so far *)
}.

(** A process in which nothing has been constructed yet. *)
Definition fresh_process : process := mkProcess None None 0 ∅ 0.

Module Int8GEMM.

(** Where a thread stands inside a call [Int8GEMM()], which runs
    [__new__] and then [__init__] on the object [__new__] returned. *)
Inductive pc :=
| New_check                       (* l.87  if not hasattr(Int8GEMM, "_instance") *)
| New_acquire                     (* l.88  with Int8GEMM._instance_lock *)
| New_recheck                     (* l.89  if not hasattr(Int8GEMM, "_instance") *)
| New_create                      (* l.90  Int8GEMM._instance = object.__new__(cls) *)
| New_release                     (* l.88  leaving the with block *)
| New_return                      (* l.91  return Int8GEMM._instance *)
| Init_check (self : nat)         (* l.83  if not hasattr(self, "i8cugemm") *)
| Init_factory (self : nat)       (* l.84  ops.I8CUGEMM() *)
| Init_store (self kernel : nat)  (* l.84  self.i8cugemm = ... *)
| Returned (self : nat)
| Raised (e : exn).

(** One atomic step of thread [tid]; [None] when the thread cannot
    move: it waits for the lock, or its call is over. *)
Definition step (tid : nat) (at_ : pc) (p : process)
    : option (pc * process) :=
  match at_ with
  | New_check =>
      Some (if _instance p is Some _ then New_return else New_acquire, p)
  | New_acquire =>
      match _instance_lock p with
      | Some _ => None
      | None =>
          Some (New_recheck,
                mkProcess (_instance p) (Some tid) (objects p)
                  (i8cugemm_of p) (factory_calls p))
      end
  | New_recheck =>
      Some (if _instance p is Some _ then New_release else New_create, p)
  | New_create =>
      Some (New_release,
            mkProcess (Some (objects p)) (_instance_lock p)
              (S (objects p)) (i8cugemm_of p) (factory_calls p))
  | New_release =>
      Some (New_return,
            mkProcess (_instance p) None (objects p) (i8cugemm_of p)
              (factory_calls p))
  | New_return =>
      match _instance p with
      | Some self => Some (Init_check self, p)
      | None => Some (Raised (AttributeError "_instance"), p)
      end
  | Init_check self =>
      Some (if i8cugemm_of p !! self is Some _ then Returned self
            else Init_factory self, p)
  | Init_factory self =>
      Some (Init_store self (factory_calls p),
            mkProcess (_instance p) (_instance_lock p) (objects p)
              (i8cugemm_of p) (S (factory_calls p)))
  | Init_store self kernel =>
      Some (Returned self,
            mkProcess (_instance p) (_instance_lock p) (objects p)
              (<[self := kernel]> (i8cugemm_of p)) (factory_calls p))
  | Returned _ => None
  | Raised _ => None
  end.

(** A thread running alone for at most [fuel] steps. *)
Fixpoint run (fuel tid : nat) (at_ : pc) (p : process) : pc * process :=
  match fuel with
  | O => (at_, p)
  | S fuel' =>
      match step tid at_ p with
      | Some (at', p') => run fuel' tid at' p'
      | None => (at_, p)
      end
  end.

(** [Int8GEMM()] with no other thread running: the object returned or
    the exception raised, and [None] when the call never returns.  The
    longest path through the call has nine steps. *)
Definition call (p : process) : option (result nat * process) :=
  match run 9 0 New_check p with
  | (Returned self, p') => Some (Ok self, p')
  | (Raised e, p') => Some (Raise e, p')
  | _ => None
  end.

(** [self.get_i8cugemm()]. *)
Definition get_i8cugemm (self : nat) (p : process) : result nat :=
  match i8cugemm_of p !! self with
  | Some kernel => Ok kernel
  | None => Raise (AttributeError "i8cugemm")
  end.

End Int8GEMM.

(** ** Quantized linear operator *)

Module SQLinearMethod.

Record t := mk { i8cugemm : nat }.

(** [SQLinearMethod.__init__(gemm)], where [gemm] is the callable that
    yields the kernel handle provider. *)
Definition __init__ (gemm : process → option (result nat * process))
    (p : process) : option (result t * process) :=
  match gemm p with
  | None => None
  | Some (Raise e, p') => Some (Raise e, p')
  | Some (Ok i8_gemm, p') =>
      match Int8GEMM.get_i8cugemm i8_gemm p' with
      | Ok kernel => Some (Ok (mk kernel), p')
      | Raise e => Some (Raise e, p')
      end
  end.

(** [create_weights(input_size_per_partition, output_size_per_partition,
    input_size, output_size, params_dtype)].  The sizes are natural
    numbers.  The dictionary returned is keyed by the names of the seven
    tensors. *)
Definition create_weights (self : t)
    (input_size_per_partition output_size_per_partition
     input_size output_size : nat) (params_dtype : torch_dtype)
    : M (gmap string Tensor) :=
  let* weight := torch_empty [output_size_per_partition;
                         input_size_per_partition] torch_int8 cuda in
  let weight := nn_Parameter weight false in
  let weight :=
    set_weight_attrs weight [("input_dim", 1%Z); ("output_dim", 0%Z)] in
  let* q_dequant_scale := torch_tensor 1%Qc torch_float32 cpu in
  let q_dequant_scale := nn_Parameter q_dequant_scale false in
  let* k_dequant_scale := torch_tensor 1%Qc torch_float32 cpu in
  let k_dequant_scale := nn_Parameter k_dequant_scale false in
  let* v_dequant_scale := torch_tensor 1%Qc torch_float32 cpu in
  let v_dequant_scale := nn_Parameter v_dequant_scale false in
  let* gate_dequant_scale := torch_tensor 1%Qc torch_float32 cpu in
  let gate_dequant_scale := nn_Parameter gate_dequant_scale false in
  let* up_dequant_scale := torch_tensor 1%Qc torch_float32 cpu in
  let up_dequant_scale := nn_Parameter up_dequant_scale false in
  let* dequant_scale := torch_tensor 1%Qc torch_float32 cpu in
  let dequant_scale := nn_Parameter dequant_scale false in
  ret (<["weight" := weight]>
       (<["q_dequant_scale" := q_dequant_scale]>
       (<["k_dequant_scale" := k_dequant_scale]>
       (<["v_dequant_scale" := v_dequant_scale]>
       (<["gate_dequant_scale" := gate_dequant_scale]>
       (<["up_dequant_scale" := up_dequant_scale]>
       (<["dequant_scale" := dequant_scale]> ∅))))))).

(** [apply_weights(weights, x, bias)].  The [assert] is executed, as it
    is unless the interpreter is told to strip assertions.  The kernel
    writes into [y]; the name [y] is bound again to the tensor as
    written. *)
Definition apply_weights (self : t) (weights : gmap string Tensor)
    (x : Tensor) (bias : option Tensor) : M Tensor :=
  let* _ := (if bias is None then ret tt else raise AssertionError) in
  let* weight := lift (match weights !! "weight" with
                  | Some w => Ok w
                  | None => Raise (KeyError "weight")
                  end) in
  let x_shape := shape x in
  let* last_dim := lift (size_last x_shape) in
  let* x := lift (view x [(-1)%Z; Z.of_nat last_dim]) in
  let* batch := lift (size_first (shape x)) in
  let* out_features := lift (size_first (shape weight)) in
  let* y := torch_empty [batch; out_features] torch_int32 (device x) in
  let* y := linear_a8_w8_o32_ (i8cugemm self) x weight y in
  let* y := lift (view y (map Z.of_nat (size_but_last x_shape) ++ [(-1)%Z])) in
  ret y.

End SQLinearMethod.

(** [SmoothQuantConfig.get_linear_method()]. *)
Definition get_linear_method (self : SmoothQuantConfig.t) (p : process)
    : option (result SQLinearMethod.t * process) :=
  SQLinearMethod.__init__ Int8GEMM.call p.

(** [SmoothQuantConfig.get_supported_act_dtypes()]. *)
Definition get_supported_act_dtypes (self : SmoothQuantConfig.t)
    : list torch_dtype :=
  [torch_half; torch_float].

(** ** Threads constructing linear methods *)

(** A thread that executes [SQLinearMethod(Int8GEMM)]: it is inside the
    call [gemm()] of line 102, or it has read the kernel attribute on
    line 103 and holds its linear method, or it has raised. *)
Inductive thread :=
| Constructing (at_ : Int8GEMM.pc)
| Built (m : SQLinearMethod.t)
| Failed (e : exn).

Definition thread_step (tid : nat) (th : thread) (p : process)
    : option (thread * process) :=
  match th with
  | Constructing (Int8GEMM.Returned i8_gemm) =>
      match Int8GEMM.get_i8cugemm i8_gemm p with
      | Ok kernel => Some (Built (SQLinearMethod.mk kernel), p)
      | Raise e => Some (Failed e, p)
      end
  | Constructing (Int8GEMM.Raised e) => Some (Failed e, p)
  | Constructing at_ =>
      match Int8GEMM.step tid at_ p with
      | Some (at', p') => Some (Constructing at', p')
      | None => None
      end
  | Built _ => None
  | Failed _ => None
  end.

(** The threads of the process, by thread number, and the state they
    share. *)
Record system := mkSystem {
  threads : list thread;
  shared : process
}.

(** The scheduler lets thread [tid] take one step; nothing happens when
    that thread cannot move. *)
Definition schedule_step (s : system) (tid : nat) : system :=
  match threads s !! tid with
  | None => s
  | Some th =>
      match thread_step tid th (shared s) with
      | None => s
      | Some (th', p') => mkSystem (<[tid := th']> (threads s)) p'
      end
  end.

Definition run_schedule (schedule : list nat) (s : system) : system :=
  foldl schedule_step s schedule.

(** [n] threads about to construct a linear method in a fresh process. *)
Definition start (n : nat) : system :=
  mkSystem (replicate n (Constructing Int8GEMM.New_check)) fresh_process.

(** [n] linear methods constructed one after the other by a single
    thread; [None] when one of the constructions does not return. *)
Fixpoint construct_sequentially (n : nat) (self : SmoothQuantConfig.t)
    (p : process) : option (list (result SQLinearMethod.t) * process) :=
  match n with
  | O => Some ([], p)
  | S n' =>
      match get_linear_method self p with
      | None => None
      | Some (m, p') =>
          match construct_sequentially n' self p' with
          | None => None
          | Some (ms, p'') => Some (m :: ms, p'')
          end
      end
  end.

(** The [Int8GEMM] object a thread has got from [__new__], if any. *)
Definition held_instance (th : thread) : option nat :=
  match th with
  | Constructing (Int8GEMM.Init_check self)
  | Constructing (Int8GEMM.Init_factory self)
  | Constructing (Int8GEMM.Init_store self _)
  | Constructing (Int8GEMM.Returned self) => Some self
  | _ => None
  end.

(** The thread is inside the [with] block of [__new__]. *)
Definition in_critical_section (th : thread) : bool :=
  match th with
  | Constructing Int8GEMM.New_recheck
  | Constructing Int8GEMM.New_create
  | Constructing Int8GEMM.New_release => true
  | _ => false
  end.

(** What the lock of [__new__] maintains, whatever the scheduler does:
    an object a thread holds is the class attribute; a thread inside the
    [with] block holds the lock; a thread about to create the instance
    has seen that there is none; and the instance, once made, is the
    only object ever made. *)
Record consistent (s : system) : Prop := {
  held_is_instance :
    ∀ tid th self, threads s !! tid = Some th →
      held_instance th = Some self → _instance (shared s) = Some self;
  critical_holds_lock :
    ∀ tid th, threads s !! tid = Some th →
      in_critical_section th = true → _instance_lock (shared s) = Some tid;
  create_sees_none :
    ∀ tid, threads s !! tid = Some (Constructing Int8GEMM.New_create) →
      _instance (shared s) = None;
  one_object :
    match _instance (shared s) with
    | Some self => self = 0 ∧ objects (shared s) = 1
    | None => objects (shared s) = 0
    end
}.

(** The thread has left the constructor: it holds its linear method or
    has raised. *)
Definition finished (th : thread) : bool :=
  match th with
  | Constructing _ => false
  | Built _ | Failed _ => true
  end.

(** The thread has gone past line 84, or has skipped it. *)
Definition past_factory (th : thread) : bool :=
  match th with
  | Constructing (Int8GEMM.Init_store _ _)
  | Constructing (Int8GEMM.Returned _)
  | Built _ | Failed _ => true
  | _ => false
  end.

(** How many threads have gone past line 84, or have skipped it. *)
Definition threads_past_factory (ths : list thread) : nat :=
  sum_list ((λ th, if past_factory th then 1 else 0) <$> ths).

(** Thread [tid] of the system can take a step. *)
Definition can_step (s : system) (tid : nat) : Prop :=
  ∃ th, threads s !! tid = Some th
        ∧ is_Some (thread_step tid th (shared s)).

(** What every schedule maintains besides [consistent]: a thread that
    is about to return the instance finds one; a thread whose call has
    returned finds the kernel attribute; no thread has raised; every
    kernel that is stored, about to be stored or held by a linear method
    was made by the factory; the lock is held by a thread inside the
    [with] block; and the factory was called at most once for each
    thread that went past line 84. *)
Record safe (s : system) : Prop := {
  return_sees_instance :
    ∀ tid, threads s !! tid = Some (Constructing Int8GEMM.New_release)
           ∨ threads s !! tid = Some (Constructing Int8GEMM.New_return) →
      is_Some (_instance (shared s));
  returned_sees_kernel :
    ∀ tid self, threads s !! tid = Some (Constructing (Int8GEMM.Returned self)) →
      is_Some (i8cugemm_of (shared s) !! self);
  nothing_raised :
    ∀ tid e, threads s !! tid ≠ Some (Failed e)
             ∧ threads s !! tid ≠ Some (Constructing (Int8GEMM.Raised e));
  stored_kernels_made :
    ∀ self kernel, i8cugemm_of (shared s) !! self = Some kernel →
      kernel < factory_calls (shared s);
  pending_kernels_made :
    ∀ tid self kernel,
      threads s !! tid = Some (Constructing (Int8GEMM.Init_store self kernel)) →
      kernel < factory_calls (shared s);
  built_kernels_made :
    ∀ tid m, threads s !! tid = Some (Built m) →
      SQLinearMethod.i8cugemm m < factory_calls (shared s);
  lock_holder_inside :
    ∀ tid, _instance_lock (shared s) = Some tid →
      ∃ th, threads s !! tid = Some th ∧ in_critical_section th = true;
  factory_calls_bounded :
    (factory_calls (shared s) ≤ threads_past_factory (threads s))%nat
}.

(** ** Reading tensors by index *)




(** The tensor is contiguous. *)
Definition contiguous (t : Tensor) : Prop :=
  stride t = contiguous_strides (shape t).



(** What a tensor is apart from its elements. *)
Definition descriptor (t : Tensor)
    : list nat * torch_dtype * torch_device * bool * gmap string Z :=
  (shape t, dtype t, device t, requires_grad t, attrs t).

(** The names under which [create_weights] returns the six
    dequantization scales. *)
Definition scale_names : list string :=
  ["q_dequant_scale"; "k_dequant_scale"; "v_dequant_scale";
   "gate_dequant_scale"; "up_dequant_scale"; "dequant_scale"].

(** A runtime that has served no request and whose memory reads as
    zero, for concrete runs. *)
Definition idle_runtime : runtime := mkRuntime (λ _ _, 0%Qc) [].

(** Integer elements. *)
Definition ints (l : list Z) : list Qc := map (λ z, Q2Qc (inject_Z z)) l.

(** Small tensors for concrete runs: a [2 × 1 × 3] input, an empty
    [0 × 2] input, weights of size [2 × 3] and [3 × 2], all of them
    contiguous, and the [2 × 3 × 2] input obtained by exchanging the
    first two dimensions of a contiguous [3 × 2 × 2] tensor. *)
Definition example_input : Tensor :=
  mkTensor [2; 1; 3] [3; 3; 1] 0 torch_int8 cuda false ∅
    (ints [1; 2; 3; 4; 5; 6]%Z).

Definition example_weight : Tensor :=
  mkTensor [2; 3] [3; 1] 0 torch_int8 cuda false ∅
    (ints [1; 0; 1; 0; 1; 0]%Z).

Definition empty_input : Tensor :=
  mkTensor [0; 2] [2; 1] 0 torch_int8 cuda false ∅ [].

Definition narrow_weight : Tensor :=
  mkTensor [3; 2] [2; 1] 0 torch_int8 cuda false ∅
    (ints [1; 0; 0; 1; 1; 1]%Z).

Definition transposed_input : Tensor :=
  mkTensor [2; 3; 2] [2; 4; 1] 0 torch_int8 cuda false ∅
    (ints [1; 2; 3; 4; 5; 6; 7; 8; 9; 10; 11; 12]%Z).

(** Two threads construct a linear method for the first time.  Thread 0
    runs up to and including the check of line 83, then thread 1 does
    the same, and then each of them runs lines 84 and 103. *)
Definition race_schedule : list nat :=
  [0; 0; 0; 0; 0; 0; 0; 1; 1; 1; 0; 0; 0; 1; 1; 1].

(** ** The policy parser as the specification words it *)

(** A value that is exactly the string "per-tensor" or "per-token". *)
Definition granularity_tag (v : pyval) : Prop :=
  v = PStr "per-tensor" ∨ v = PStr "per-token".

#[global] Instance pyval_eq_str_dec (v : pyval) (s : string)
  : Decision (v = PStr s).
Proof.
  destruct v as [| | | |s'| |]; try (right; discriminate).
  destruct (decide (s' = s)) as [->|Hne]; [left; reflexivity|].
  right; intros [= ?]; contradiction.
Defined.

#[global] Instance granularity_tag_dec (v : pyval)
  : Decision (granularity_tag v).
Proof. unfold granularity_tag. apply _. Defined.

(** FromRawConfig of the specification: the bit width is the value
    found under "w_bit" or under "bits", and 8 with a warning when
    neither key is present; the map keeps the pairs whose value is a
    granularity tag; the policy is built from the two. *)
Definition FromRawConfig (config : gmap string pyval)
    : list SmoothQuantConfig.stdout_line * result SmoothQuantConfig.t :=
  let m := filter (λ kv, granularity_tag kv.2) config in
  match config !! "w_bit", config !! "bits" with
  | Some b, _ => ([], SmoothQuantConfig.__init__ b (Some m))
  | None, Some b => ([], SmoothQuantConfig.__init__ b (Some m))
  | None, None =>
      ([SmoothQuantConfig.DefaultBitsWarning
          (MissingBitWidthKey ["w_bit"; "bits"])],
       SmoothQuantConfig.__init__ (PInt 8) (Some m))
  end.

(** The configuration of the specification's example. *)
Definition example_config : gmap string pyval :=
  <["qkv" := PStr "per-tensor"]>
    (<["out" := PStr "per-token"]> (<["bits" := PInt 8]> ∅)).

(** Sizes and strides of a contiguous tensor, last dimension first:
    [rsize] is the size read backwards and [s] the stride of its first
    entry. *)
Fixpoint stride_chain (rsize : list nat) (s : nat) : list (nat * nat) :=
  match rsize with
  | [] => []
  | d :: rest => (d, s) :: stride_chain rest (s * d)
  end.

(** The strides [take_view] has found once it has placed all of [news]
    in a chunk of base stride 1. *)
Fixpoint placed_strides (news : list nat) (view_numel : nat)
    (newstride : list nat) : list nat :=
  match news with
  | [] => newstride
  | d :: news' =>
      placed_strides news' (view_numel * d) (view_numel * 1 :: newstride)
  end.


(** The bit width the configuration asks for is acceptable: the value
    under "w_bit", or else under "bits", equals 8, or neither key is
    there. *)
Definition bit_width_ok (config : gmap string pyval) : bool :=
  match config !! "w_bit", config !! "bits" with
  | Some b, _ => py_eq_int b 8
  | None, Some b => py_eq_int b 8
  | None, None => true
  end.

(** * Properties *)

(** ** Policy construction *)

Lemma py_ne_int_PInt (z n : Z) : py_ne_int (PInt z) n = true ↔ z ≠ n.
Proof.
  unfold py_ne_int, py_eq_int. rewrite negb_true_iff, bool_decide_eq_false.
  reflexivity.
Qed.

(** Comparisons with the literal [8]: the float [8.0] equals it; [True],
    the string "8" and [None] do not. *)
Example py_ne_int_values :
  py_ne_int (PFloat (Finite (Q2Qc 8))) 8 = false
  ∧ py_ne_int (PBool true) 8 = true
  ∧ py_ne_int (PStr "8") 8 = true
  ∧ py_ne_int PNone 8 = true.
Proof. vm_compute. repeat split; reflexivity. Qed.

(** The bit-width check is the first thing that can fail, whatever the
    Python value of [weight_bits] and whatever the map. *)
Lemma init_bit_width_first (weight_bits : pyval)
    (quant_map : option (gmap string pyval)) :
  py_ne_int weight_bits 8 = true →
  SmoothQuantConfig.__init__ weight_bits quant_map
  = Raise (ValueError (UnsupportedBitWidth weight_bits)).
Proof.
  intros Hne. unfold SmoothQuantConfig.__init__. simpl. rewrite Hne.
  reflexivity.
Qed.

(** Once the bit-width check has passed, the outcome depends on the map
    alone. *)
Lemma init_after_bit_width (weight_bits : pyval)
    (quant_map : option (gmap string pyval)) :
  py_ne_int weight_bits 8 = false →
  SmoothQuantConfig.__init__ weight_bits quant_map
  = match quant_map with
    | None => Raise (ValueError EmptyQuantizationMap)
    | Some m =>
        if bool_decide (m = ∅) then Raise (ValueError EmptyQuantizationMap)
        else Ok (SmoothQuantConfig.mk weight_bits quant_map)
    end.
Proof.
  intros Heq. unfold SmoothQuantConfig.__init__. simpl. rewrite Heq.
  destruct quant_map; reflexivity.
Qed.

(** C4. Construction with a bit width other than 8 fails with
    UnsupportedBitWidth, whatever the quantization map; with the bit
    width 8 the failure, if any, is not UnsupportedBitWidth. *)
Theorem unsupported_bit_width (weight_bits : Z)
    (quant_map : option (gmap string pyval)) :
  (weight_bits ≠ 8%Z →
   SmoothQuantConfig.__init__ (PInt weight_bits) quant_map
   = Raise (ValueError (UnsupportedBitWidth (PInt weight_bits))))
  ∧ (weight_bits = 8%Z →
     ∀ got, SmoothQuantConfig.__init__ (PInt weight_bits) quant_map
            ≠ Raise (ValueError (UnsupportedBitWidth got))).
Proof.
  split.
  - intros Hne. apply init_bit_width_first. by apply py_ne_int_PInt.
  - intros -> got. rewrite init_after_bit_width by reflexivity.
    destruct quant_map as [m|]; [|discriminate].
    case_bool_decide; discriminate.
Qed.

Lemma unsupported_bit_width_witness :
  SmoothQuantConfig.__init__ (PInt 4) (Some example_config)
  = Raise (ValueError (UnsupportedBitWidth (PInt 4)))
  ∧ SmoothQuantConfig.__init__ (PInt 8) None
    ≠ Raise (ValueError (UnsupportedBitWidth (PInt 8))).
Proof.
  split.
  - apply (unsupported_bit_width 4 (Some example_config)). lia.
  - apply (unsupported_bit_width 8 None). reflexivity.
Defined.

(** C5. With the bit width 8, construction fails with
    EmptyQuantizationMap when the map is absent or empty, and succeeds
    when the map is not empty. *)
Theorem empty_quantization_map (quant_map : option (gmap string pyval)) :
  (quant_map = None ∨ quant_map = Some ∅ →
   SmoothQuantConfig.__init__ (PInt 8) quant_map
   = Raise (ValueError EmptyQuantizationMap))
  ∧ (∀ m, quant_map = Some m → m ≠ ∅ →
     SmoothQuantConfig.__init__ (PInt 8) quant_map
     = Ok (SmoothQuantConfig.mk (PInt 8) (Some m))).
Proof.
  rewrite init_after_bit_width by reflexivity. split.
  - intros [-> | ->]; [reflexivity|]. by rewrite bool_decide_eq_true_2.
  - intros m -> Hne. by rewrite bool_decide_eq_false_2.
Qed.

Lemma empty_quantization_map_witness :
  SmoothQuantConfig.__init__ (PInt 8) (Some ∅)
  = Raise (ValueError EmptyQuantizationMap)
  ∧ SmoothQuantConfig.__init__ (PInt 8) (Some {["qkv" := PStr "per-tensor"]})
    = Ok (SmoothQuantConfig.mk (PInt 8)
            (Some {["qkv" := PStr "per-tensor"]})).
Proof.
  split.
  - apply (empty_quantization_map (Some ∅)). right. reflexivity.
  - apply (empty_quantization_map (Some {["qkv" := PStr "per-tensor"]}));
      [reflexivity|].
    apply insert_non_empty.
Defined.

(** C9. When both preconditions are violated, the failure raised is
    UnsupportedBitWidth: the bit width is validated before the map. *)
Theorem bit_width_checked_before_map (weight_bits : Z)
    (quant_map : option (gmap string pyval)) :
  weight_bits ≠ 8%Z →
  quant_map = None ∨ quant_map = Some ∅ →
  SmoothQuantConfig.__init__ (PInt weight_bits) quant_map
  = Raise (ValueError (UnsupportedBitWidth (PInt weight_bits))).
Proof.
  intros Hne _. apply init_bit_width_first. by apply py_ne_int_PInt.
Qed.

Lemma bit_width_checked_before_map_witness :
  SmoothQuantConfig.__init__ (PInt 4) None
  = Raise (ValueError (UnsupportedBitWidth (PInt 4))).
Proof.
  apply (bit_width_checked_before_map 4 None); [lia | left; reflexivity].
Defined.

(** ** Parsing a raw configuration *)

Lemma py_in_strs_granularity (v : pyval) :
  py_in_strs v ["per-tensor"; "per-token"] = true ↔ granularity_tag v.
Proof.
  unfold py_in_strs, granularity_tag. simpl. rewrite orb_false_r, orb_true_iff.
  destruct v as [| | | |s| |]; simpl;
    try (split; [intros [?|?]; discriminate | intros [?|?]; discriminate]).
  rewrite !bool_decide_eq_true. split.
  - intros [-> | ->]; [left | right]; reflexivity.
  - intros [[= ->] | [= ->]]; [left | right]; reflexivity.
Qed.

(** The loop over [config.items()] keeps exactly the pairs whose value
    is a granularity tag. *)
Lemma quant_map_loop (config : gmap string pyval) :
  map_fold SmoothQuantConfig.keep_granularity ∅ config
  = filter (λ kv, granularity_tag kv.2) config.
Proof.
  apply (map_fold_weak_ind (λ r m, r = filter (λ kv, granularity_tag kv.2) m)).
  - symmetry. apply map_filter_empty.
  - intros key value m r Hfresh ->. unfold SmoothQuantConfig.keep_granularity.
    destruct (py_in_strs value _) eqn:Hin.
    + apply py_in_strs_granularity in Hin.
      by rewrite map_filter_insert_True.
    + rewrite map_filter_insert_False.
      * by rewrite delete_id.
      * simpl. rewrite <- py_in_strs_granularity. by rewrite Hin.
Qed.

Lemma get_from_keys_bits (config : gmap string pyval) :
  SmoothQuantConfig.get_from_keys config ["w_bit"; "bits"]
  = match config !! "w_bit", config !! "bits" with
    | Some b, _ => Ok b
    | None, Some b => Ok b
    | None, None => Raise (ValueError (MissingBitWidthKey ["w_bit"; "bits"]))
    end.
Proof.
  unfold SmoothQuantConfig.get_from_keys. simpl.
  destruct (config !! "w_bit"); [reflexivity|].
  destruct (config !! "bits"); reflexivity.
Qed.

Lemma from_config_unfold (config : gmap string pyval) :
  SmoothQuantConfig.from_config config = FromRawConfig config.
Proof.
  unfold SmoothQuantConfig.from_config, FromRawConfig.
  rewrite get_from_keys_bits, quant_map_loop.
  destruct (config !! "w_bit"); [reflexivity|].
  destruct (config !! "bits"); reflexivity.
Qed.

(** The only exceptions that leave the constructor. *)
Lemma init_raises (weight_bits : pyval)
    (quant_map : option (gmap string pyval)) (e : exn) :
  SmoothQuantConfig.__init__ weight_bits quant_map = Raise e →
  e = ValueError (UnsupportedBitWidth weight_bits)
  ∨ e = ValueError EmptyQuantizationMap.
Proof.
  unfold SmoothQuantConfig.__init__. simpl.
  destruct (py_ne_int weight_bits 8); [intros [= <-]; by left|].
  destruct quant_map as [m|]; [|intros [= <-]; by right].
  case_bool_decide; [intros [= <-]; by right | discriminate].
Qed.

Lemma init_returns (weight_bits : pyval)
    (quant_map : option (gmap string pyval)) (c : SmoothQuantConfig.t) :
  SmoothQuantConfig.__init__ weight_bits quant_map = Ok c →
  py_eq_int weight_bits 8 = true
  ∧ c = SmoothQuantConfig.mk weight_bits quant_map.
Proof.
  unfold SmoothQuantConfig.__init__, py_ne_int. simpl.
  destruct (py_eq_int weight_bits 8); simpl; [|discriminate].
  destruct quant_map as [m|]; [|discriminate].
  case_bool_decide; [discriminate|]. by intros [= <-].
Qed.

(** C6. [from_config] is the FromRawConfig of the specification; the
    missing bit-width key never leaves the call as an exception; and on
    the example configuration the policy has the bit width 8 and the map
    of the two granularity entries. *)
Theorem from_config_is_FromRawConfig :
  (∀ config, SmoothQuantConfig.from_config config = FromRawConfig config)
  ∧ (∀ config keys,
       (SmoothQuantConfig.from_config config).2
       ≠ Raise (ValueError (MissingBitWidthKey keys)))
  ∧ SmoothQuantConfig.from_config example_config
    = ([], Ok (SmoothQuantConfig.mk (PInt 8)
                 (Some (<["qkv" := PStr "per-tensor"]>
                          {["out" := PStr "per-token"]})))).
Proof.
  split; [exact from_config_unfold|]. split.
  - intros config keys. rewrite from_config_unfold. unfold FromRawConfig.
    destruct (config !! "w_bit") as [b|]; [|destruct (config !! "bits") as [b|]];
      simpl; intros [?|?]%init_raises; discriminate.
  - rewrite from_config_unfold. unfold FromRawConfig, example_config.
    repeat (rewrite lookup_insert_ne by done).
    rewrite lookup_empty, lookup_insert_eq.
    rewrite map_filter_insert_True by (by left).
    rewrite map_filter_insert_True by (by right).
    rewrite map_filter_insert_False by (intros [?|?]; discriminate).
    rewrite delete_empty, map_filter_empty.
    rewrite init_after_bit_width by reflexivity.
    rewrite bool_decide_eq_false_2 by apply insert_non_empty.
    reflexivity.
Qed.

(** C10 as stated fails: the value filter admits a bit-width key.  With
    "w_bit" at 8 and "bits" holding a granularity string, parsing
    succeeds and "bits" is a key of the resulting map. *)
Lemma from_config_keeps_bits_key :
  SmoothQuantConfig.from_config
    (<["w_bit" := PInt 8]> {["bits" := PStr "per-tensor"]})
  = ([], Ok (SmoothQuantConfig.mk (PInt 8)
               (Some {["bits" := PStr "per-tensor"]})))
  ∧ ({["bits" := PStr "per-tensor"]} : gmap string pyval) !! "bits"
    = Some (PStr "per-tensor").
Proof.
  split; [|apply lookup_singleton_eq].
  rewrite from_config_unfold. unfold FromRawConfig.
  rewrite lookup_insert_eq.
  rewrite map_filter_insert_False by (intros [?|?]; discriminate).
  rewrite delete_singleton_ne by done.
  rewrite map_filter_singleton_True by (by left).
  rewrite init_after_bit_width by reflexivity.
  rewrite bool_decide_eq_false_2 by apply insert_non_empty.
  reflexivity.
Qed.

(** C10, amended. On every configuration that parses, the key under
    which the bit width was found is not a key of the resulting map:
    "w_bit" never is, and "bits" is only when the configuration holds
    "w_bit" with the value 8 and "bits" with a granularity string. *)
Theorem quant_map_excludes_lookup_key (config : gmap string pyval)
    (c : SmoothQuantConfig.t) (m : gmap string pyval) :
  (SmoothQuantConfig.from_config config).2 = Ok c →
  SmoothQuantConfig.quant_map c = Some m →
  m !! "w_bit" = None
  ∧ (is_Some (m !! "bits") →
     ∃ b g, config !! "w_bit" = Some b ∧ py_eq_int b 8 = true
            ∧ config !! "bits" = Some g ∧ granularity_tag g).
Proof.
  rewrite from_config_unfold. unfold FromRawConfig.
  destruct (config !! "w_bit") as [b|] eqn:Hw;
    [|destruct (config !! "bits") as [b|] eqn:Hb]; simpl;
    intros [Hb8 ->]%init_returns [= <-].
  - split.
    + apply map_lookup_filter_None. right. intros x Hx Htag.
      simpl in Htag. rewrite Hw in Hx. injection Hx as <-.
      destruct Htag as [-> | ->]; discriminate.
    + intros [g [Hg Htag]%map_lookup_filter_Some]. by exists b, g.
  - split.
    + apply map_lookup_filter_None. by left.
    + intros [g [Hg Htag]%map_lookup_filter_Some]. simpl in Htag.
      rewrite Hb in Hg. injection Hg as <-.
      destruct Htag as [-> | ->]; discriminate.
  - split.
    + apply map_lookup_filter_None. by left.
    + intros [g [Hg _]%map_lookup_filter_Some]. congruence.
Qed.

Lemma quant_map_excludes_lookup_key_witness :
  (<["qkv" := PStr "per-tensor"]> {["out" := PStr "per-token"]}
     : gmap string pyval) !! "w_bit" = None
  ∧ (is_Some ((<["qkv" := PStr "per-tensor"]> {["out" := PStr "per-token"]}
                 : gmap string pyval) !! "bits") →
     ∃ b g, example_config !! "w_bit" = Some b ∧ py_eq_int b 8 = true
            ∧ example_config !! "bits" = Some g ∧ granularity_tag g).
Proof.
  apply (quant_map_excludes_lookup_key example_config
           (SmoothQuantConfig.mk (PInt 8)
              (Some (<["qkv" := PStr "per-tensor"]>
                       {["out" := PStr "per-token"]})))).
  - vm_compute. reflexivity.
  - reflexivity.
Defined.

(** ** Creating the weights *)

(** The dictionary [create_weights] returns, spelled out. *)
Lemma create_weights_returns (self : SQLinearMethod.t)
    (input_size_per_partition output_size_per_partition
     input_size output_size : nat) (params_dtype : torch_dtype)
    (r : runtime) :
  ∃ contents r',
    let scale := mkTensor [] [] 0 torch_float32 cpu false ∅ [1%Qc] in
    let weight :=
      mkTensor [output_size_per_partition; input_size_per_partition]
        (contiguous_strides
           [output_size_per_partition; input_size_per_partition]) 0
        torch_int8 cuda false
        (<["output_dim" := 0%Z]> (<["input_dim" := 1%Z]> ∅)) contents in
    SQLinearMethod.create_weights self input_size_per_partition
      output_size_per_partition input_size output_size params_dtype r
    = (Ok (<["weight" := weight]>
           (<["q_dequant_scale" := scale]>
           (<["k_dequant_scale" := scale]>
           (<["v_dequant_scale" := scale]>
           (<["gate_dequant_scale" := scale]>
           (<["up_dequant_scale" := scale]>
           (<["dequant_scale" := scale]> ∅))))))), r').
Proof.
  eexists _, _.
  lazy beta iota zeta delta
    [SQLinearMethod.create_weights bind ret torch_empty torch_tensor
     nn_Parameter set_weight_attrs foldl fst snd
     shape stride storage_offset dtype device requires_grad attrs data].
  reflexivity.
Qed.

(** C3. Whatever the partition sizes and the requested dtype,
    [create_weights] returns an [int8] weight of size
    [[output_size_per_partition, input_size_per_partition]] tagged with
    [input_dim = 1] and [output_dim = 0], and besides it exactly the six
    dequantization scales, each a [float32] scalar equal to [1.0] on the
    CPU. *)
Theorem create_weights_layout (self : SQLinearMethod.t)
    (input_size_per_partition output_size_per_partition
     input_size output_size : nat) (params_dtype : torch_dtype)
    (r : runtime) :
  ∃ weights r',
    SQLinearMethod.create_weights self input_size_per_partition
      output_size_per_partition input_size output_size params_dtype r
    = (Ok weights, r')
    ∧ (∃ weight,
         weights !! "weight" = Some weight
         ∧ shape weight
           = [output_size_per_partition; input_size_per_partition]
         ∧ dtype weight = torch_int8
         ∧ attrs weight !! "input_dim" = Some 1%Z
         ∧ attrs weight !! "output_dim" = Some 0%Z)
    ∧ dom weights = {["weight"]} ∪ list_to_set scale_names
    ∧ size weights = 7
    ∧ (∀ name, name ∈ scale_names →
         ∃ scale,
           weights !! name = Some scale
           ∧ shape scale = []
           ∧ dtype scale = torch_float32
           ∧ data scale = [1%Qc]
           ∧ device scale = cpu).
Proof.
  destruct (create_weights_returns self input_size_per_partition
              output_size_per_partition input_size output_size
              params_dtype r) as (contents & r' & Hrun).
  simpl in Hrun. eexists _, r'. split; [exact Hrun|].
  split; [|split; [|split]].
  - eexists. split; [apply lookup_insert_eq|]. by simpl.
  - rewrite !dom_insert_L, dom_empty_L. unfold scale_names. simpl.
    set_solver.
  - rewrite !map_size_insert_None, map_size_empty; [done|..];
      by simplify_map_eq.
  - intros name Hin. unfold scale_names in Hin.
    repeat (apply elem_of_cons in Hin as [-> | Hin]);
      [..|by apply elem_of_nil in Hin];
      (eexists; split; [by simplify_map_eq|done]).
Qed.

(** C8. The two total sizes play no role: two calls that agree on the
    partition sizes and the dtype return the same dictionary and leave
    the runtime in the same state when they start from the same state,
    and from any two states they return dictionaries with the same
    names, the same descriptors and the same scales. *)
Theorem create_weights_ignores_total_sizes (self : SQLinearMethod.t)
    (input_size_per_partition output_size_per_partition : nat)
    (input_size1 output_size1 input_size2 output_size2 : nat)
    (params_dtype : torch_dtype) :
  (∀ r,
     SQLinearMethod.create_weights self input_size_per_partition
       output_size_per_partition input_size1 output_size1 params_dtype r
     = SQLinearMethod.create_weights self input_size_per_partition
         output_size_per_partition input_size2 output_size2 params_dtype r)
  ∧ (∀ r1 r2, ∃ weights1 weights2 r1' r2',
       SQLinearMethod.create_weights self input_size_per_partition
         output_size_per_partition input_size1 output_size1 params_dtype r1
       = (Ok weights1, r1')
       ∧ SQLinearMethod.create_weights self input_size_per_partition
           output_size_per_partition input_size2 output_size2 params_dtype r2
         = (Ok weights2, r2')
       ∧ dom weights1 = dom weights2
       ∧ ∀ name t1 t2,
           weights1 !! name = Some t1 → weights2 !! name = Some t2 →
           descriptor t1 = descriptor t2
           ∧ (name ≠ "weight" → t1 = t2)).
Proof.
  split; [reflexivity|]. intros r1 r2.
  destruct (create_weights_returns self input_size_per_partition
              output_size_per_partition input_size1 output_size1
              params_dtype r1) as (contents1 & r1' & Hrun1).
  destruct (create_weights_returns self input_size_per_partition
              output_size_per_partition input_size2 output_size2
              params_dtype r2) as (contents2 & r2' & Hrun2).
  simpl in Hrun1, Hrun2. eexists _, _, r1', r2'.
  split; [exact Hrun1|]. split; [exact Hrun2|]. split.
  - by rewrite !dom_insert_L.
  - intros name t1 t2 H1 H2.
    repeat match type of H1 with
           | <[_ := _]> _ !! _ = Some _ =>
               apply lookup_insert_Some in H1 as [[<- <-] | [? H1]]
           end;
      simplify_map_eq; split; done.
Qed.

(** ** Applying the weights *)

(** C7. With a bias, [apply_weights] raises the assertion error before
    anything else happens: the runtime is left as it was, so no buffer
    has been allocated and the kernel has not been invoked. *)
Theorem bias_is_rejected (self : SQLinearMethod.t)
    (weights : gmap string Tensor) (x bias : Tensor) (r : runtime) :
  let out := SQLinearMethod.apply_weights self weights x (Some bias) r in
  out.1 = Raise AssertionError
  ∧ out.2 = r
  ∧ trace out.2 = trace r.
Proof. by repeat split. Qed.

Lemma numel_snoc (size : list nat) (d : nat) :
  numel (size ++ [d]) = numel size * d.
Proof.
  unfold numel. induction size as [|d' size IH]; simpl; [lia|].
  rewrite IH. lia.
Qed.

(** Scanning past dimensions that are sizes multiplies them up and
    leaves the inferred position alone. *)
Lemma scan_size_sizes (dims : list nat) (rest : list Z) (dim newsize : nat)
    (infer_dim : option nat) :
  scan_size (map Z.of_nat dims ++ rest) dim newsize infer_dim
  = scan_size rest (dim + length dims) (newsize * numel dims) infer_dim.
Proof.
  revert dim newsize.
  induction dims as [|d dims IH]; intros dim newsize; simpl.
  - f_equal; unfold numel; simpl; lia.
  - destruct (Z.eqb_spec (Z.of_nat d) (-1)) as [?|_]; [lia|].
    destruct (Z.leb_spec 0 (Z.of_nat d)) as [_|?]; [|lia].
    rewrite IH, Nat2Z.id. f_equal; [lia|].
    unfold numel. simpl. lia.
Qed.


(** [view(-1, K)] of [batch * K] elements, for a positive [K]. *)
Lemma infer_size_flatten (batch K : nat) :
  0 < K →
  infer_size [(-1)%Z; Z.of_nat K] (batch * K) = Ok [batch; K].
Proof.
  intros HK. unfold infer_size.
  change [(-1)%Z; Z.of_nat K] with ([(-1)%Z] ++ map Z.of_nat [K] ++ [])%list.
  cbn [app scan_size Z.eqb Pos.eqb]. rewrite scan_size_sizes. cbn [scan_size].
  replace (1 * numel [K]) with K by (unfold numel; simpl; lia).
  rewrite Nat.Div0.mod_mul, Nat.eqb_refl.
  rewrite (proj2 (Nat.ltb_lt 0 K)) by done.
  rewrite bool_decide_eq_true_2 by by eexists.
  rewrite orb_true_r.
  rewrite (proj2 (Nat.eqb_neq K 0)) by lia.
  rewrite Nat.div_mul by lia. simpl. by rewrite Nat2Z.id.
Qed.






Lemma dot_ext (K : nat) (a a' b b' : nat → Qc) :
  (∀ k, a k = a' k) → (∀ k, b k = b' k) → dot K a b = dot K a' b'.
Proof.
  intros Ha Hb. unfold dot.
  induction (seq 0 K) as [|k ks IH]; simpl; [done|].
  by rewrite Ha, Hb, IH.
Qed.




(** *** Strides of views *)

Lemma numel_cons (d : nat) (size : list nat) :
  numel (d :: size) = d * numel size.
Proof. reflexivity. Qed.

Lemma numel_app (size1 size2 : list nat) :
  numel (size1 ++ size2) = numel size1 * numel size2.
Proof.
  induction size1 as [|d size1 IH].
  - unfold numel. simpl. lia.
  - rewrite <- app_comm_cons, !numel_cons, IH. lia.
Qed.

Lemma numel_reverse (size : list nat) : numel (reverse size) = numel size.
Proof.
  induction size as [|d size IH]; [done|].
  rewrite reverse_cons, numel_app, IH, !numel_cons.
  unfold numel at 2. simpl. lia.
Qed.

Lemma padded_numel_pos (size : list nat) :
  0 < numel size → padded_numel size = numel size.
Proof.
  induction size as [|d size IH]; [done|].
  rewrite numel_cons. intros Hpos.
  assert (0 < d ∧ 0 < numel size) as [Hd Hsize] by lia.
  unfold padded_numel in *. simpl. rewrite IH by done.
  rewrite Nat.max_l by lia. reflexivity.
Qed.


Lemma last_contiguous_strides (size : list nat) :
  default 1 (last (contiguous_strides size)) = 1.
Proof.
  induction size as [|d [|d' rest] IH]; [done..|].
  exact IH.
Qed.

Lemma stride_chain_app (rsize1 rsize2 : list nat) (s : nat) :
  stride_chain (rsize1 ++ rsize2) s
  = (stride_chain rsize1 s ++ stride_chain rsize2 (s * numel rsize1))%list.
Proof.
  revert s. induction rsize1 as [|d rsize1 IH]; intros s.
  - simpl. f_equal. unfold numel. simpl. lia.
  - rewrite <- app_comm_cons. cbn [stride_chain]. rewrite IH, numel_cons.
    rewrite <- app_comm_cons. do 3 f_equal. lia.
Qed.

Lemma reverse_zip_contiguous (size : list nat) :
  0 < numel size →
  reverse (zip size (contiguous_strides size))
  = stride_chain (reverse size) 1.
Proof.
  induction size as [|d size IH]; [done|].
  rewrite numel_cons. intros Hpos.
  assert (0 < d ∧ 0 < numel size) as [Hd Hsize] by lia.
  cbn [contiguous_strides zip zip_with].
  rewrite !reverse_cons, IH, stride_chain_app by done. simpl.
  rewrite padded_numel_pos, numel_reverse by done.
  do 3 f_equal. lia.
Qed.

Lemma placed_strides_app (news1 news2 : list nat) (v : nat)
    (acc : list nat) :
  placed_strides (news1 ++ news2) v acc
  = placed_strides news2 (v * numel news1) (placed_strides news1 v acc).
Proof.
  revert v acc. induction news1 as [|d news1 IH]; intros v acc.
  - simpl. f_equal. unfold numel. simpl. lia.
  - rewrite <- app_comm_cons. cbn [placed_strides].
    rewrite IH, numel_cons. f_equal. lia.
Qed.

Lemma placed_strides_reverse (size : list nat) (v : nat) (acc : list nat) :
  0 < numel size →
  placed_strides (reverse size) v acc
  = (map (Nat.mul v) (contiguous_strides size) ++ acc)%list.
Proof.
  revert v acc. induction size as [|d size IH]; intros v acc; [done|].
  rewrite numel_cons. intros Hpos.
  assert (0 < d ∧ 0 < numel size) as [Hd Hsize] by lia.
  rewrite reverse_cons, placed_strides_app, IH by done. simpl.
  rewrite padded_numel_pos, numel_reverse by done.
  f_equal. lia.
Qed.

Lemma placed_strides_contiguous (size : list nat) :
  0 < numel size →
  placed_strides (reverse size) 1 [] = contiguous_strides size.
Proof.
  intros Hpos. rewrite placed_strides_reverse, app_nil_r by done.
  rewrite <- (map_id (contiguous_strides size)) at 2.
  apply map_ext. intros s. lia.
Qed.

(** In a chunk of base stride 1, view dimensions whose product is the
    size of the chunk are all placed. *)
Lemma take_view_all (news : list nat) (v T : nat) (acc : list nat) :
  0 < T → v * numel news = T →
  take_view news v T 1 acc = ([], T, placed_strides news v acc).
Proof.
  intros HT. revert v acc.
  induction news as [|d news IH]; intros v acc Hv.
  - simpl. unfold numel in Hv. simpl in Hv. do 2 f_equal. lia.
  - rewrite numel_cons in Hv. cbn [take_view placed_strides].
    assert (((v <? T) || (d =? 1))%nat = true) as ->.
    { destruct (Nat.ltb_spec v T) as [|Hge]; [done|]. simpl.
      apply Nat.eqb_eq.
      assert (d * numel news < 2) as Hsmall.
      { destruct (d * numel news) as [|[|m]]; [lia..|]. nia. }
      destruct d as [|[|d]]; [lia..|]. destruct (numel news); lia. }
    apply IH. lia.
Qed.

(** A dimension whose stride continues the chunk is merged into it. *)
Lemma view_chunks_merge (d s d' base T v : nat) (before : list (nat * nat))
    (news acc : list nat) :
  view_chunks ((d, s) :: (d', T * d * base) :: before) news base T v acc
  = view_chunks ((d', T * d * base) :: before) news base (T * d) v acc.
Proof.
  cbn [view_chunks]. by rewrite Nat.eqb_refl, andb_false_r.
Qed.

(** A contiguous tensor is a single chunk. *)
Lemma view_chunks_chain (rsize news : list nat) (T v : nat)
    (acc : list nat) :
  rsize ≠ [] →
  view_chunks (stride_chain rsize T) news 1 T v acc
  = let '(news', v', acc') := take_view news v (T * numel rsize) 1 acc in
    if (v' =? T * numel rsize)%nat then Some (news', acc') else None.
Proof.
  revert T. induction rsize as [|d [|d' rest] IH]; intros T Hne; [done|..].
  - simpl. unfold numel. simpl. rewrite Nat.mul_1_r.
    by destruct (take_view _ _ _ _ _) as [[? ?] ?].
  - change (stride_chain (d :: d' :: rest) T)
      with ((d, T) :: (d', T * d) :: stride_chain rest (T * d * d')).
    rewrite <- (Nat.mul_1_r (T * d)) at 1. rewrite view_chunks_merge.
    rewrite Nat.mul_1_r.
    change ((d', T * d) :: stride_chain rest (T * d * d'))
      with (stride_chain (d' :: rest) (T * d)).
    rewrite IH by done. rewrite (numel_cons d), Nat.mul_assoc. reflexivity.
Qed.

(** A contiguous tensor with elements can be viewed under every size
    with as many elements, and the view is contiguous. *)
Lemma compute_stride_contiguous (size newsize : list nat) :
  size ≠ [] → 0 < numel size → numel newsize = numel size →
  compute_stride size (contiguous_strides size) newsize
  = Some (contiguous_strides newsize).
Proof.
  intros Hne Hpos Hsame. unfold compute_stride.
  destruct size as [|d size]; [done|].
  rewrite (proj2 (Nat.eqb_neq _ 0)) by lia.
  rewrite last_contiguous_strides, reverse_zip_contiguous by done.
  rewrite view_chunks_chain by (rewrite reverse_cons; by destruct (reverse size)).
  rewrite numel_reverse, Nat.mul_1_l.
  rewrite take_view_all by (rewrite ?numel_reverse; lia).
  rewrite Nat.eqb_refl, placed_strides_contiguous by lia. reflexivity.
Qed.

(** A tensor without elements can be viewed whatever its strides. *)
Lemma compute_stride_empty (size stride newsize : list nat) :
  numel size = 0 → is_Some (compute_stride size stride newsize).
Proof.
  intros Hzero. unfold compute_stride.
  destruct size as [|d size]; [by eexists|].
  rewrite Hzero. simpl. case_bool_decide; by eexists.
Qed.

Lemma view_flatten (x : Tensor) (lead : list nat) (K : nat) :
  shape x = (lead ++ [K])%list → 0 < K →
  contiguous x ∨ numel lead = 0 →
  ∃ st,
    view x [(-1)%Z; Z.of_nat K]
    = Ok (mkTensor [numel lead; K] st (storage_offset x) (dtype x)
            (device x) (requires_grad x) ∅ (data x))
    ∧ (0 < numel lead → st = contiguous_strides [numel lead; K]).
Proof.
  intros Hshape HK Hstride. unfold view.
  rewrite Hshape, numel_snoc, infer_size_flatten by done.
  destruct (Nat.eq_dec (numel lead) 0) as [Hzero|Hpos].
  - destruct (compute_stride_empty (lead ++ [K]) (stride x) [numel lead; K])
      as [st ->]; [rewrite numel_snoc; lia|].
    exists st. split; [done|lia].
  - destruct Hstride as [Hcontiguous|]; [|done].
    rewrite Hcontiguous, Hshape, compute_stride_contiguous.
    + by eexists.
    + by destruct lead.
    + rewrite numel_snoc. nia.
    + rewrite numel_snoc, !numel_cons. unfold numel at 2. simpl. lia.
Qed.


(** *** Reading a contiguous tensor *)







(** *** Integer entries *)









Lemma lift_eta {A} (v : result A) (r : runtime) :
  match v with Ok a => (Ok a, r) | Raise e => (Raise e, r) end = (v, r).
Proof. by destruct v. Qed.

(** What [apply_weights] does once the arguments have been read and the
    input flattened: it allocates the output, invokes the kernel and
    views the result. *)
Lemma apply_weights_run (self : SQLinearMethod.t)
    (weights : gmap string Tensor) (weight x x2 : Tensor)
    (lead rest rest2 : list nat) (K N batch : nat) (r : runtime) :
  weights !! "weight" = Some weight →
  shape x = (lead ++ [K])%list →
  view x [(-1)%Z; Z.of_nat K] = Ok x2 →
  shape x2 = batch :: rest2 →
  shape weight = N :: rest →
  SQLinearMethod.apply_weights self weights x None r
  = (let* y := torch_empty [batch; N] torch_int32 (device x2) in
     let* y := linear_a8_w8_o32_ (SQLinearMethod.i8cugemm self) x2 weight y in
     lift (view y (map Z.of_nat lead ++ [(-1)%Z]))) r.
Proof.
  intros Hweight Hshape Hview Hshape2 HshapeW.
  unfold SQLinearMethod.apply_weights, bind, lift, ret.
  rewrite Hweight, Hshape. unfold size_last. rewrite last_snoc.
  rewrite Hview, Hshape2, HshapeW. cbn [size_first].
  unfold size_but_last. rewrite removelast_last.
  unfold torch_empty, linear_a8_w8_o32_. lazy beta iota zeta.
  apply lift_eta.
Qed.



(** On the example input the product is computed row by row. *)
Example apply_weights_example :
  match (SQLinearMethod.apply_weights (SQLinearMethod.mk 0)
           {["weight" := example_weight]} example_input None
           idle_runtime).1 with
  | Ok y => shape y = [2; 1; 2] ∧ Qcanon.this <$> data y = [4; 2; 10; 5]%Q
  | Raise _ => False
  end.
Proof. vm_compute. split; reflexivity. Qed.

(** An input whose elements do not lie in row-major order, such as a
    transposed one, is refused by the first view, before anything is
    allocated. *)
Example apply_weights_transposed_input :
  shape transposed_input = [2; 3; 2]
  ∧ shape narrow_weight = [3; 2]
  ∧ SQLinearMethod.apply_weights (SQLinearMethod.mk 0)
      {["weight" := narrow_weight]} transposed_input None idle_runtime
    = (Raise (RuntimeError ViewNotCompatible), idle_runtime).
Proof. vm_compute. repeat split; reflexivity. Qed.


(** ** The shared kernel handle *)

(** The first construction in a fresh process makes the instance and
    the native kernel object. *)
Lemma first_construction (self : SmoothQuantConfig.t) :
  get_linear_method self fresh_process
  = Some (Ok (SQLinearMethod.mk 0), mkProcess (Some 0) None 1 {[0 := 0]} 1).
Proof. reflexivity. Qed.

(** Every later construction by a single thread finds both and changes
    nothing. *)
Lemma later_constructions (n : nat) (self : SmoothQuantConfig.t) :
  construct_sequentially n self (mkProcess (Some 0) None 1 {[0 := 0]} 1)
  = Some (replicate n (Ok (SQLinearMethod.mk 0)),
          mkProcess (Some 0) None 1 {[0 := 0]} 1).
Proof.
  induction n as [|n IH]; [reflexivity|].
  cbn [construct_sequentially replicate].
  change (get_linear_method self _) with
    (Some (Ok (SQLinearMethod.mk 0), mkProcess (Some 0) None 1 {[0 := 0]} 1)).
  lazy beta iota. by rewrite IH.
Qed.

(** X7. Constructions that follow one another all return, share one
    native kernel object, and invoke the factory once. *)
Lemma sequential_constructions_share (n : nat) (self : SmoothQuantConfig.t) :
  ∃ p, construct_sequentially (S n) self fresh_process
       = Some (replicate (S n) (Ok (SQLinearMethod.mk 0)), p)
       ∧ _instance p = Some 0
       ∧ factory_calls p = 1.
Proof.
  eexists. split; [|split].
  - cbn [construct_sequentially replicate].
    rewrite first_construction. lazy beta iota.
    rewrite later_constructions. reflexivity.
  - reflexivity.
  - reflexivity.
Qed.

(** C2. Two threads that construct their linear method at the same time
    can both pass the check of line 83 before either has stored the
    kernel: both then call the native factory, which is invoked twice,
    and although they share the one [Int8GEMM] instance the two linear
    methods hold different native kernel objects. *)
Theorem concurrent_constructions_race :
  let s := run_schedule race_schedule (start 2) in
  threads s = [Built (SQLinearMethod.mk 0); Built (SQLinearMethod.mk 1)]
  ∧ _instance (shared s) = Some 0
  ∧ objects (shared s) = 1
  ∧ factory_calls (shared s) = 2.
Proof. vm_compute. repeat split; reflexivity. Qed.

Lemma consistent_start (n : nat) : consistent (start n).
Proof.
  split; simpl.
  - intros tid th self [-> _]%lookup_replicate. discriminate.
  - intros tid th [-> _]%lookup_replicate. discriminate.
  - intros tid [? _]%lookup_replicate. discriminate.
  - reflexivity.
Qed.

Lemma consistent_step (s : system) (tid : nat) :
  consistent s → consistent (schedule_step s tid).
Proof.
  destruct s as [ths [inst lk objs attr calls]].
  intros [Hheld Hcrit Hcreate Hone]. unfold schedule_step. simpl in *.
  destruct (ths !! tid) as [th|] eqn:Hth; [|by split].
  destruct th as [at_|m|e]; [|by split..].
  destruct at_; simpl; repeat case_match; simplify_eq; try (by split);
    try (pose proof (Hcrit tid _ Hth eq_refl) as Hmine);
    try (pose proof (Hcreate tid Hth) as Hnone);
    try (pose proof (Hheld tid _ _ Hth eq_refl) as Hself);
    (split; simpl;
     [ intros tid' th' self' Hl Hh
     | intros tid' th' Hl Hc
     | intros tid' Hl
     | ];
     try (apply list_lookup_insert_Some in Hl as [(? & ? & _) | (Hne & Hl)];
          simplify_eq);
     simpl in *;
     try (pose proof (Hcrit tid' _ Hl Hc) as Hlock);
     try (pose proof (Hcreate tid' Hl) as Hfree);
     try (pose proof (Hheld tid' _ _ Hl Hh) as Hsame);
     try (pose proof (Hcrit tid' _ Hl eq_refl) as Hlock');
     simplify_eq; try done).
Qed.

Lemma consistent_run (schedule : list nat) (s : system) :
  consistent s → consistent (run_schedule schedule s).
Proof.
  revert s. induction schedule as [|tid schedule IH]; intros s Hs; [done|].
  apply IH, consistent_step, Hs.
Qed.

(** X1. Under every schedule of any number of threads, a thread that holds
    an [Int8GEMM] object holds the first and only object ever made: the
    lock of [__new__] does give all callers the identical instance. *)
Lemma instance_is_shared_under_any_schedule (n : nat) (schedule : list nat)
    (tid : nat) (th : thread) (self : nat) :
  let s := run_schedule schedule (start n) in
  threads s !! tid = Some th →
  held_instance th = Some self →
  self = 0 ∧ _instance (shared s) = Some 0 ∧ objects (shared s) = 1.
Proof.
  intros s Hth Hheld.
  destruct (consistent_run schedule (start n) (consistent_start n))
    as [Hsame _ _ Hone].
  fold s in Hsame, Hone. rewrite (Hsame tid th self Hth Hheld) in Hone.
  destruct Hone as [-> Hobjects].
  by rewrite (Hsame tid th 0 Hth Hheld).
Qed.

(** ** One call of the kernel handle provider *)

(** The three ways through [Int8GEMM()] when it is not kept waiting. *)
Lemma call_constructed (p : process) (self kernel : nat) :
  _instance p = Some self →
  i8cugemm_of p !! self = Some kernel →
  Int8GEMM.call p = Some (Ok self, p).
Proof.
  destruct p as [inst lk objs attr calls]. simpl. intros -> Hattr.
  unfold Int8GEMM.call. simpl. rewrite Hattr. reflexivity.
Qed.

Lemma call_makes_kernel (p : process) (self : nat) :
  _instance p = Some self →
  i8cugemm_of p !! self = None →
  Int8GEMM.call p
  = Some (Ok self,
          mkProcess (Some self) (_instance_lock p) (objects p)
            (<[self := factory_calls p]> (i8cugemm_of p))
            (S (factory_calls p))).
Proof.
  destruct p as [inst lk objs attr calls]. simpl. intros -> Hattr.
  unfold Int8GEMM.call. simpl. rewrite Hattr. reflexivity.
Qed.

Lemma call_makes_instance (p : process) :
  _instance p = None →
  _instance_lock p = None →
  Int8GEMM.call p
  = Some (Ok (objects p),
          match i8cugemm_of p !! objects p with
          | Some _ =>
              mkProcess (Some (objects p)) None (S (objects p))
                (i8cugemm_of p) (factory_calls p)
          | None =>
              mkProcess (Some (objects p)) None (S (objects p))
                (<[objects p := factory_calls p]> (i8cugemm_of p))
                (S (factory_calls p))
          end).
Proof.
  destruct p as [inst lk objs attr calls]. simpl. intros -> ->.
  unfold Int8GEMM.call. simpl. destruct (attr !! objs); reflexivity.
Qed.

Lemma call_waits (p : process) (holder : nat) :
  _instance p = None →
  _instance_lock p = Some holder →
  Int8GEMM.call p = None.
Proof.
  destruct p as [inst lk objs attr calls]. simpl. intros -> ->. reflexivity.
Qed.

(** ** What every schedule maintains *)

Lemma threads_past_factory_insert (ths : list thread) (tid : nat)
    (th th' : thread) :
  ths !! tid = Some th →
  threads_past_factory (<[tid := th']> ths)
  + (if past_factory th then 1 else 0)
  = threads_past_factory ths + (if past_factory th' then 1 else 0).
Proof.
  unfold threads_past_factory. revert tid.
  induction ths as [|th0 ths IH]; intros [|tid] Hth; simplify_eq/=.
  - lia.
  - specialize (IH tid Hth). lia.
Qed.

Lemma threads_past_factory_le (ths : list thread) :
  (threads_past_factory ths ≤ length ths)%nat.
Proof.
  unfold threads_past_factory.
  induction ths as [|th ths IH]; csimpl; [done|].
  destruct (past_factory th); lia.
Qed.

Lemma safe_start (n : nat) : safe (start n).
Proof.
  split; simpl.
  - intros tid [[? _]%lookup_replicate | [? _]%lookup_replicate]; discriminate.
  - intros tid self [? _]%lookup_replicate. discriminate.
  - intros tid e. split; intros [? _]%lookup_replicate; discriminate.
  - intros self kernel Hk. by rewrite lookup_empty in Hk.
  - intros tid self kernel [? _]%lookup_replicate. discriminate.
  - intros tid m [? _]%lookup_replicate. discriminate.
  - discriminate.
  - lia.
Qed.

Lemma safe_step (s : system) (tid : nat) :
  safe s → safe (schedule_step s tid).
Proof.
  destruct s as [ths [inst lk objs attr calls]].
  intros [Hret Hkern Hnone Hstored Hpending Hbuilt Hlock Hbound].
  unfold schedule_step. simpl in *.
  destruct (ths !! tid) as [th|] eqn:Hth; [|by split].
  pose proof (λ th', threads_past_factory_insert ths tid th th' Hth) as Hsum.
  pose proof (lookup_lt_Some _ _ _ Hth) as Htid.
  destruct th as [at_|m|e]; [|by split..].
  destruct at_; simpl; unfold Int8GEMM.get_i8cugemm; simpl;
    repeat case_match; simplify_eq; try (by split);
    try (by destruct (Hret tid (or_intror Hth)));
    try (by destruct (Hkern tid _ Hth) as [? ?]; simplify_eq);
    try (by destruct (Hnone tid e) as [_ []]);
    (split; simpl;
     [ intros tid' [Hl|Hl];
       apply list_lookup_insert_Some in Hl as [(? & ? & _) | (? & Hl)];
       simplify_eq; try (by eexists); eauto
     | intros tid' self' Hl;
       apply list_lookup_insert_Some in Hl as [(? & ? & _) | (? & Hl)];
       simplify_eq;
       try (rewrite lookup_insert; case_decide);
       try (by eexists); eauto
     | intros tid' e'; split; intros Hl;
       apply list_lookup_insert_Some in Hl as [(? & ? & _) | (? & Hl)];
       simplify_eq; by destruct (Hnone tid' e')
     | intros self' kernel' Hk;
       try (apply lookup_insert_Some in Hk as [[? ?] | [? Hk]]; simplify_eq);
       try (pose proof (Hstored _ _ Hk));
       try (pose proof (Hpending _ _ _ Hth)); lia
     | intros tid' self' kernel' Hl;
       apply list_lookup_insert_Some in Hl as [(? & ? & _) | (? & Hl)];
       simplify_eq; try (pose proof (Hpending _ _ _ Hl)); lia
     | intros tid' m' Hl;
       apply list_lookup_insert_Some in Hl as [(? & ? & _) | (? & Hl)];
       simplify_eq; simpl;
       try (pose proof (Hbuilt _ _ Hl));
       try match goal with
           | Hk : attr !! _ = Some _ |- _ => pose proof (Hstored _ _ Hk)
           end; lia
     | intros tid' Hlk;
       destruct (decide (tid' = tid)) as [->|Hne];
       [ eexists; split; [by apply list_lookup_insert_eq|];
         try done;
         destruct (Hlock tid Hlk) as (? & ? & ?); simplify_eq
       | try congruence;
         rewrite list_lookup_insert_ne by done; by apply Hlock ]
     | match goal with
       | |- context [<[_ := ?x]> ths] => specialize (Hsum x)
       end; simpl in *; lia ]).
  Unshelve. all: exact 0.
Qed.

Lemma safe_run (schedule : list nat) (s : system) :
  safe s → safe (run_schedule schedule s).
Proof.
  revert s. induction schedule as [|tid schedule IH]; intros s Hs; [done|].
  apply IH, safe_step, Hs.
Qed.

Lemma length_schedule_step (s : system) (tid : nat) :
  length (threads (schedule_step s tid)) = length (threads s).
Proof.
  unfold schedule_step. repeat case_match; simpl; by rewrite ?length_insert.
Qed.

Lemma length_run_schedule (schedule : list nat) (s : system) :
  length (threads (run_schedule schedule s)) = length (threads s).
Proof.
  revert s. induction schedule as [|tid schedule IH]; intros s; [done|].
  simpl. by rewrite IH, length_schedule_step.
Qed.

(** A thread inside the [with] block can always move on. *)
Lemma critical_can_step (tid : nat) (th : thread) (p : process) :
  in_critical_section th = true → is_Some (thread_step tid th p).
Proof.
  destruct th as [[]| |]; try discriminate; intros _; simpl; by eexists.
Qed.

(** After thread 0 of two has run up to the call of the factory, it
    holds object 0. *)
Lemma instance_is_shared_under_any_schedule_witness :
  0 = 0
  ∧ _instance (shared (run_schedule [0; 0; 0; 0; 0; 0; 0] (start 2))) = Some 0
  ∧ objects (shared (run_schedule [0; 0; 0; 0; 0; 0; 0] (start 2))) = 1.
Proof.
  apply (instance_is_shared_under_any_schedule 2 [0; 0; 0; 0; 0; 0; 0] 0
           (Constructing (Int8GEMM.Init_factory 0)) 0).
  - vm_compute. reflexivity.
  - reflexivity.
Defined.

(** X2. Mutual exclusion: under every schedule at most one thread is
    inside the [with] block of [__new__]. *)
Theorem one_thread_in_critical_section (n : nat) (schedule : list nat)
    (tid1 tid2 : nat) (th1 th2 : thread) :
  threads (run_schedule schedule (start n)) !! tid1 = Some th1 →
  threads (run_schedule schedule (start n)) !! tid2 = Some th2 →
  in_critical_section th1 = true →
  in_critical_section th2 = true →
  tid1 = tid2.
Proof.
  intros Hth1 Hth2 Hin1 Hin2.
  destruct (consistent_run schedule (start n) (consistent_start n))
    as [_ Hlock _ _].
  pose proof (Hlock tid1 th1 Hth1 Hin1) as Hholder1.
  pose proof (Hlock tid2 th2 Hth2 Hin2) as Hholder2.
  congruence.
Qed.

Lemma one_thread_in_critical_section_witness : 0 = 0.
Proof.
  apply (one_thread_in_critical_section 2 [0; 0] 0 0
           (Constructing Int8GEMM.New_recheck)
           (Constructing Int8GEMM.New_recheck)).
  - vm_compute. reflexivity.
  - vm_compute. reflexivity.
  - reflexivity.
  - reflexivity.
Defined.

(** X3. Under every schedule no thread raises: [__new__] always finds
    the instance it returns, and [get_i8cugemm] always finds the kernel
    attribute. *)
Theorem no_thread_raises (n : nat) (schedule : list nat) (tid : nat)
    (e : exn) :
  threads (run_schedule schedule (start n)) !! tid ≠ Some (Failed e)
  ∧ threads (run_schedule schedule (start n)) !! tid
    ≠ Some (Constructing (Int8GEMM.Raised e)).
Proof.
  destruct (safe_run schedule (start n) (safe_start n))
    as [_ _ Hnone _ _ _ _ _].
  apply Hnone.
Qed.

(** X4. Under every schedule, the kernel a linear method holds is one
    the factory has made; so the factory has been called at least once
    as soon as one linear method exists. *)
Theorem built_method_holds_made_kernel (n : nat) (schedule : list nat)
    (tid : nat) (m : SQLinearMethod.t) :
  threads (run_schedule schedule (start n)) !! tid = Some (Built m) →
  SQLinearMethod.i8cugemm m
  < factory_calls (shared (run_schedule schedule (start n))).
Proof.
  destruct (safe_run schedule (start n) (safe_start n))
    as [_ _ _ _ _ Hbuilt _ _].
  apply Hbuilt.
Qed.

Lemma built_method_holds_made_kernel_witness :
  1 < factory_calls (shared (run_schedule race_schedule (start 2))).
Proof.
  apply (built_method_holds_made_kernel 2 race_schedule 1
           (SQLinearMethod.mk 1)).
  vm_compute. reflexivity.
Defined.

(** X5. Under every schedule of [n] threads the factory is called at
    most [n] times: each thread calls it at most once. *)
Theorem factory_called_at_most_once_per_thread (n : nat)
    (schedule : list nat) :
  (factory_calls (shared (run_schedule schedule (start n))) ≤ n)%nat.
Proof.
  destruct (safe_run schedule (start n) (safe_start n))
    as [_ _ _ _ _ _ _ Hbound].
  pose proof (threads_past_factory_le
                (threads (run_schedule schedule (start n)))) as Hle.
  rewrite length_run_schedule in Hle. simpl in Hle.
  rewrite length_replicate in Hle. lia.
Qed.

(** X6. No deadlock: under every schedule, as long as some thread has
    not finished, some thread can take a step. *)
Theorem no_deadlock (n : nat) (schedule : list nat) (tid : nat)
    (th : thread) :
  threads (run_schedule schedule (start n)) !! tid = Some th →
  finished th = false →
  ∃ tid', can_step (run_schedule schedule (start n)) tid'.
Proof.
  intros Hth Hrunning.
  destruct (safe_run schedule (start n) (safe_start n))
    as [_ _ _ _ _ _ Hlock _].
  destruct (thread_step tid th (shared (run_schedule schedule (start n))))
    as [next|] eqn:Hstep.
  { exists tid, th. split; [done|]. rewrite Hstep. by eexists. }
  destruct th as [at_|m|e]; [|discriminate..].
  destruct at_; simpl in Hstep; unfold Int8GEMM.get_i8cugemm in Hstep;
    repeat case_match; simplify_eq.
  destruct (Hlock _ eq_refl) as (holder & Hholder & Hinside).
  eexists _, holder. split; [done|]. by apply critical_can_step.
Qed.

Lemma no_deadlock_witness :
  ∃ tid', can_step (run_schedule [0; 0; 1; 1] (start 2)) tid'.
Proof.
  apply (no_deadlock 2 [0; 0; 1; 1] 1 (Constructing Int8GEMM.New_acquire)).
  - vm_compute. reflexivity.
  - reflexivity.
Defined.

(** ** One call, from any state of the process *)

(** X8. A call that is not kept waiting returns the singleton fully
    constructed: the object returned is the class attribute, it is the
    one that was there before if there was one, it carries a kernel, the
    factory has been called at most once, at most one object has been
    made, and a further call returns the same object and changes
    nothing. *)
Theorem call_returns_constructed_singleton (p : process) :
  is_Some (_instance p) ∨ _instance_lock p = None →
  ∃ self p',
    Int8GEMM.call p = Some (Ok self, p')
    ∧ _instance p' = Some self
    ∧ (∀ o, _instance p = Some o → self = o)
    ∧ is_Some (i8cugemm_of p' !! self)
    ∧ (factory_calls p ≤ factory_calls p' ≤ S (factory_calls p))%nat
    ∧ (objects p ≤ objects p' ≤ S (objects p))%nat
    ∧ Int8GEMM.call p' = Some (Ok self, p').
Proof.
  intros Hfree.
  assert (∀ q o k, _instance q = Some o → i8cugemm_of q !! o = Some k →
            is_Some (i8cugemm_of q !! o)
            ∧ Int8GEMM.call q = Some (Ok o, q)) as Hdone.
  { intros q o k Hq Hk. split; [by eexists|by apply (call_constructed q o k)]. }
  destruct (_instance p) as [o|] eqn:Hinst.
  - destruct (i8cugemm_of p !! o) as [k|] eqn:Hattr.
    + exists o, p. rewrite (call_constructed p o k Hinst Hattr).
      destruct (Hdone p o k Hinst Hattr) as [Hk Hagain].
      split_and!; try done; try lia. by intros ? [= ->].
    + eexists o, _. rewrite (call_makes_kernel p o Hinst Hattr).
      edestruct (Hdone (mkProcess (Some o) (_instance_lock p) (objects p)
                          (<[o := factory_calls p]> (i8cugemm_of p))
                          (S (factory_calls p))) o) as [Hk Hagain];
        [done|apply lookup_insert_eq|].
      split; [reflexivity|].
      split_and!; simpl; try done; try lia. by intros ? [= ->].
  - destruct Hfree as [[? [=]] | Hlock].
    pose proof (call_makes_instance p Hinst Hlock) as Hcall.
    destruct (i8cugemm_of p !! objects p) as [k|] eqn:Hattr;
      eexists (objects p), _; rewrite Hcall.
    + edestruct (Hdone (mkProcess (Some (objects p)) None (S (objects p))
                          (i8cugemm_of p) (factory_calls p)) (objects p))
        as [Hk Hagain]; [done|exact Hattr|].
      split; [reflexivity|].
      split_and!; simpl; try done; lia.
    + edestruct (Hdone (mkProcess (Some (objects p)) None (S (objects p))
                          (<[objects p := factory_calls p]> (i8cugemm_of p))
                          (S (factory_calls p))) (objects p))
        as [Hk Hagain]; [done|apply lookup_insert_eq|].
      split; [reflexivity|].
      split_and!; simpl; try done; lia.
Qed.

Lemma call_returns_constructed_singleton_witness :
  ∃ self p',
    Int8GEMM.call fresh_process = Some (Ok self, p')
    ∧ _instance p' = Some self
    ∧ (∀ o, _instance fresh_process = Some o → self = o)
    ∧ is_Some (i8cugemm_of p' !! self)
    ∧ (factory_calls fresh_process ≤ factory_calls p'
       ≤ S (factory_calls fresh_process))%nat
    ∧ (objects fresh_process ≤ objects p' ≤ S (objects fresh_process))%nat
    ∧ Int8GEMM.call p' = Some (Ok self, p').
Proof.
  apply (call_returns_constructed_singleton fresh_process).
  right. reflexivity.
Defined.

(** A call by a single thread never returns exactly when there is no
    instance yet and the lock is held: nothing will release it. *)
Lemma call_waits_forever_iff (p : process) :
  Int8GEMM.call p = None
  ↔ _instance p = None ∧ is_Some (_instance_lock p).
Proof.
  split.
  - intros Hcall.
    destruct (_instance p) as [o|] eqn:Hinst.
    + destruct (i8cugemm_of p !! o) as [k|] eqn:Hattr.
      * by rewrite (call_constructed p o k) in Hcall.
      * by rewrite (call_makes_kernel p o) in Hcall.
    + destruct (_instance_lock p) as [holder|] eqn:Hlock.
      * split; [done|by eexists].
      * by rewrite (call_makes_instance p) in Hcall.
  - intros [Hinst [holder Hlock]]. by apply (call_waits p holder).
Qed.

(** X9. Once the instance and its kernel exist, a call returns the
    instance and changes nothing, also while another thread holds the
    lock: the first check of [__new__] and the check of [__init__] take
    no lock; a linear method constructed then holds that kernel. *)
Theorem constructed_singleton_is_reused (self : SmoothQuantConfig.t)
    (p : process) (i8_gemm kernel : nat) :
  _instance p = Some i8_gemm →
  i8cugemm_of p !! i8_gemm = Some kernel →
  Int8GEMM.call p = Some (Ok i8_gemm, p)
  ∧ get_linear_method self p = Some (Ok (SQLinearMethod.mk kernel), p).
Proof.
  intros Hinst Hattr.
  pose proof (call_constructed p i8_gemm kernel Hinst Hattr) as Hcall.
  split; [done|].
  unfold get_linear_method, SQLinearMethod.__init__.
  rewrite Hcall. unfold Int8GEMM.get_i8cugemm. by rewrite Hattr.
Qed.

Lemma constructed_singleton_is_reused_witness :
  Int8GEMM.call (mkProcess (Some 0) (Some 7) 1 {[0 := 0]} 1)
  = Some (Ok 0, mkProcess (Some 0) (Some 7) 1 {[0 := 0]} 1)
  ∧ get_linear_method (SmoothQuantConfig.mk (PInt 8) None)
      (mkProcess (Some 0) (Some 7) 1 {[0 := 0]} 1)
    = Some (Ok (SQLinearMethod.mk 0),
            mkProcess (Some 0) (Some 7) 1 {[0 := 0]} 1).
Proof.
  apply (constructed_singleton_is_reused (SmoothQuantConfig.mk (PInt 8) None)
           (mkProcess (Some 0) (Some 7) 1 {[0 := 0]} 1) 0 0).
  - reflexivity.
  - apply lookup_singleton_eq.
Defined.

(** X10. Two linear methods constructed one after the other, from any
    state in which the first construction is not kept waiting and by any
    two policies, hold the same kernel, and the second construction
    changes nothing. *)
Theorem consecutive_linear_methods_share_kernel
    (self1 self2 : SmoothQuantConfig.t) (p : process) :
  is_Some (_instance p) ∨ _instance_lock p = None →
  ∃ m p',
    get_linear_method self1 p = Some (Ok m, p')
    ∧ get_linear_method self2 p' = Some (Ok m, p').
Proof.
  intros Hfree.
  assert (∃ o k p', Int8GEMM.call p = Some (Ok o, p')
                    ∧ _instance p' = Some o
                    ∧ i8cugemm_of p' !! o = Some k) as (o & k & p' & Hcall & Hinst & Hattr).
  { destruct (_instance p) as [o|] eqn:Hinst.
    - destruct (i8cugemm_of p !! o) as [k|] eqn:Hattr.
      + exists o, k, p. by rewrite (call_constructed p o k).
      + eexists o, _, _. rewrite (call_makes_kernel p o) by done.
        split; [done|]. split; [done|]. apply lookup_insert_eq.
    - destruct Hfree as [[? [=]] | Hlock].
      pose proof (call_makes_instance p Hinst Hlock) as Hcall.
      destruct (i8cugemm_of p !! objects p) as [k|] eqn:Hattr;
        eexists (objects p), _, _; rewrite Hcall;
        (split; [reflexivity|]); simpl.
      + split; [done|exact Hattr].
      + split; [done|apply lookup_insert_eq]. }
  exists (SQLinearMethod.mk k), p'.
  unfold get_linear_method, SQLinearMethod.__init__.
  rewrite Hcall, (call_constructed p' o k Hinst Hattr).
  unfold Int8GEMM.get_i8cugemm. by rewrite Hattr.
Qed.

Lemma consecutive_linear_methods_share_kernel_witness :
  ∃ m p',
    get_linear_method (SmoothQuantConfig.mk (PInt 8) None) fresh_process
    = Some (Ok m, p')
    ∧ get_linear_method (SmoothQuantConfig.mk (PInt 8) (Some example_config)) p'
      = Some (Ok m, p').
Proof.
  apply (consecutive_linear_methods_share_kernel
           (SmoothQuantConfig.mk (PInt 8) None)
           (SmoothQuantConfig.mk (PInt 8) (Some example_config))
           fresh_process).
  right. reflexivity.
Defined.

(** ** More on the policy *)

Lemma py_eq_int_8 (v : pyval) :
  py_eq_int v 8 = true
  ↔ v = PInt 8 ∨ v = PFloat (Finite (Q2Qc (inject_Z 8))).
Proof.
  split.
  - destruct v as [|[]|z|[q| | |]| | |]; simpl; try discriminate;
      intros ->%bool_decide_eq_true; auto.
  - intros [-> | ->]; reflexivity.
Qed.

(** The result of parsing in terms of the configuration alone. *)
Lemma from_config_result (config : gmap string pyval) :
  (SmoothQuantConfig.from_config config).2
  = SmoothQuantConfig.__init__
      (match config !! "w_bit", config !! "bits" with
       | Some b, _ => b
       | None, Some b => b
       | None, None => PInt 8
       end)
      (Some (filter (λ kv, granularity_tag kv.2) config)).
Proof.
  rewrite from_config_unfold. unfold FromRawConfig.
  destruct (config !! "w_bit"); [reflexivity|].
  destruct (config !! "bits"); reflexivity.
Qed.

Lemma bit_width_ok_spec (config : gmap string pyval) :
  bit_width_ok config
  = py_eq_int (match config !! "w_bit", config !! "bits" with
               | Some b, _ => b
               | None, Some b => b
               | None, None => PInt 8
               end) 8.
Proof.
  unfold bit_width_ok.
  destruct (config !! "w_bit"); [reflexivity|].
  destruct (config !! "bits"); reflexivity.
Qed.

Lemma filter_granularity_empty (config : gmap string pyval) :
  filter (λ kv, granularity_tag kv.2) config = ∅
  ↔ ∀ key v, config !! key = Some v → ¬ granularity_tag v.
Proof.
  rewrite map_empty. split.
  - intros Hnone key v Hv Htag.
    specialize (Hnone key). apply map_lookup_filter_None in Hnone.
    destruct Hnone as [Hnone | Hnone]; [congruence|]. exact (Hnone v Hv Htag).
  - intros Hnone key. apply map_lookup_filter_None. right.
    intros v Hv. exact (Hnone key v Hv).
Qed.

(** X11. Of the values a JSON configuration file can hold under "w_bit",
    exactly two are accepted as bit width: the number [8] written as an
    integer and written as the float [8.0].  Every other one, such as
    [true], the string "8" or [null], makes parsing fail, whatever else
    the configuration holds. *)
Theorem accepted_json_bit_widths (config : gmap string pyval)
    (weight_bits : pyval) :
  config !! "w_bit" = Some weight_bits →
  (∃ key v, config !! key = Some v ∧ granularity_tag v) →
  (∃ c, (SmoothQuantConfig.from_config config).2 = Ok c)
  ↔ weight_bits = PInt 8
    ∨ weight_bits = PFloat (Finite (Q2Qc (inject_Z 8))).
Proof.
  intros Hbits (key & v & Hv & Htag).
  rewrite from_config_result, Hbits, <- py_eq_int_8. split.
  - intros [c Hc]. by apply init_returns in Hc as [? _].
  - intros H8. eexists.
    rewrite init_after_bit_width by (unfold py_ne_int; by rewrite H8).
    rewrite bool_decide_eq_false_2; [reflexivity|].
    intros Hempty. rewrite filter_granularity_empty in Hempty.
    by apply (Hempty key v).
Qed.

Lemma accepted_json_bit_widths_witness :
  (∃ c, (SmoothQuantConfig.from_config
           (<["w_bit" := PStr "8"]> example_config)).2 = Ok c)
  ↔ PStr "8" = PInt 8 ∨ PStr "8" = PFloat (Finite (Q2Qc (inject_Z 8))).
Proof.
  apply (accepted_json_bit_widths (<["w_bit" := PStr "8"]> example_config)
           (PStr "8")).
  - apply lookup_insert_eq.
  - exists "qkv", (PStr "per-tensor"). split; [|by left].
    vm_compute. reflexivity.
Defined.

(** X12. Parsing succeeds exactly when the bit width asked for is
    acceptable and some value of the configuration is a granularity
    string. *)
Theorem from_config_succeeds_iff (config : gmap string pyval) :
  (∃ c, (SmoothQuantConfig.from_config config).2 = Ok c)
  ↔ bit_width_ok config = true
    ∧ ∃ key v, config !! key = Some v ∧ granularity_tag v.
Proof.
  rewrite from_config_result, bit_width_ok_spec. split.
  - intros [c Hc]. pose proof Hc as [H8 _]%init_returns. split; [done|].
    rewrite init_after_bit_width in Hc by (unfold py_ne_int; by rewrite H8).
    case_bool_decide as Hempty; [discriminate|].
    apply map_choose in Hempty as (key & v & [Hv Htag]%map_lookup_filter_Some).
    by exists key, v.
  - intros [H8 (key & v & Hv & Htag)]. eexists.
    rewrite init_after_bit_width by (unfold py_ne_int; by rewrite H8).
    rewrite bool_decide_eq_false_2; [reflexivity|].
    intros Hempty. rewrite filter_granularity_empty in Hempty.
    by apply (Hempty key v).
Qed.

(** X13. The map of a policy obtained by parsing is a non-empty part of
    the configuration, and each of its values is one of the two
    granularity strings. *)
Theorem parsed_quant_map_invariant (config : gmap string pyval)
    (c : SmoothQuantConfig.t) :
  (SmoothQuantConfig.from_config config).2 = Ok c →
  ∃ m, SmoothQuantConfig.quant_map c = Some m
       ∧ m ≠ ∅
       ∧ m ⊆ config
       ∧ (∀ key v, m !! key = Some v → granularity_tag v)
       ∧ py_eq_int (SmoothQuantConfig.weight_bits c) 8 = true.
Proof.
  rewrite from_config_result. intros Hc.
  pose proof Hc as [H8 ->]%init_returns.
  rewrite init_after_bit_width in Hc by (unfold py_ne_int; by rewrite H8).
  case_bool_decide as Hempty; [discriminate|].
  eexists. split; [reflexivity|]. split; [done|]. split; [|split; [|done]].
  - apply map_filter_subseteq.
  - by intros key v [_ Htag]%map_lookup_filter_Some.
Qed.

Lemma parsed_quant_map_invariant_witness :
  ∃ m, Some (<["qkv" := PStr "per-tensor"]>
               ({["out" := PStr "per-token"]} : gmap string pyval)) = Some m
       ∧ m ≠ ∅
       ∧ m ⊆ example_config
       ∧ (∀ key v, m !! key = Some v → granularity_tag v)
       ∧ py_eq_int (PInt 8) 8 = true.
Proof.
  apply (parsed_quant_map_invariant example_config
           (SmoothQuantConfig.mk (PInt 8)
              (Some (<["qkv" := PStr "per-tensor"]>
                       {["out" := PStr "per-token"]})))).
  vm_compute. reflexivity.
Defined.

(** X14. A key other than "w_bit" and "bits" whose value is not a
    granularity string is ignored: with or without it, what is printed
    and the policy or the failure are the same. *)
Theorem unrelated_key_is_ignored (config : gmap string pyval)
    (key : string) (v : pyval) :
  key ≠ "w_bit" → key ≠ "bits" → ¬ granularity_tag v →
  SmoothQuantConfig.from_config (<[key := v]> config)
  = SmoothQuantConfig.from_config (delete key config).
Proof.
  intros Hw Hb Htag. rewrite !from_config_unfold. unfold FromRawConfig.
  rewrite !lookup_insert_ne, !lookup_delete_ne by done.
  rewrite map_filter_insert_False by done.
  by rewrite map_filter_delete.
Qed.

Lemma unrelated_key_is_ignored_witness :
  SmoothQuantConfig.from_config (<["group_size" := PInt 128]> example_config)
  = SmoothQuantConfig.from_config (delete "group_size" example_config).
Proof.
  apply (unrelated_key_is_ignored example_config "group_size" (PInt 128)).
  - discriminate.
  - discriminate.
  - intros [? | ?]; discriminate.
Defined.

(** X15. Parsing the map of a parsed policy again gives that map back,
    with the default bit width and the warning, unless the map has the
    key "bits". *)
Theorem reparsing_quant_map (config : gmap string pyval)
    (c : SmoothQuantConfig.t) (m : gmap string pyval) :
  (SmoothQuantConfig.from_config config).2 = Ok c →
  SmoothQuantConfig.quant_map c = Some m →
  m !! "bits" = None →
  SmoothQuantConfig.from_config m
  = ([SmoothQuantConfig.DefaultBitsWarning
        (MissingBitWidthKey ["w_bit"; "bits"])],
     Ok (SmoothQuantConfig.mk (PInt 8) (Some m))).
Proof.
  intros Hc Hm Hbits.
  assert (m !! "w_bit" = None ∧ m ≠ ∅
          ∧ ∀ key v, m !! key = Some v → granularity_tag v)
    as (Hwbit & Hne & Htags).
  { rewrite from_config_result in Hc.
    pose proof Hc as [H8 ->]%init_returns. simpl in Hm. injection Hm as <-.
    rewrite init_after_bit_width in Hc by (unfold py_ne_int; by rewrite H8).
    case_bool_decide as Hempty; [discriminate|].
    split; [|split; [done|]].
    - apply map_lookup_filter_None.
      destruct (config !! "w_bit") as [b|] eqn:Hw; [right|by left].
      intros x [= <-] Htag. simpl in Htag. simpl in H8.
      destruct Htag as [-> | ->]; discriminate.
    - by intros key v [_ Htag]%map_lookup_filter_Some. }
  rewrite from_config_unfold. unfold FromRawConfig.
  rewrite Hwbit, Hbits.
  rewrite map_filter_id by (intros key v Hv; by apply (Htags key v)).
  rewrite init_after_bit_width by reflexivity.
  by rewrite bool_decide_eq_false_2.
Qed.

Lemma reparsing_quant_map_witness :
  SmoothQuantConfig.from_config
    (<["qkv" := PStr "per-tensor"]> {["out" := PStr "per-token"]})
  = ([SmoothQuantConfig.DefaultBitsWarning
        (MissingBitWidthKey ["w_bit"; "bits"])],
     Ok (SmoothQuantConfig.mk (PInt 8)
           (Some (<["qkv" := PStr "per-tensor"]>
                    {["out" := PStr "per-token"]})))).
Proof.
  apply (reparsing_quant_map example_config
           (SmoothQuantConfig.mk (PInt 8)
              (Some (<["qkv" := PStr "per-tensor"]>
                       {["out" := PStr "per-token"]})))).
  - vm_compute. reflexivity.
  - reflexivity.
  - vm_compute. reflexivity.
Defined.

(** ** More on the linear operator *)

Lemma numel_zero_scan (lead : list nat) (n : nat) :
  numel lead = 0 →
  infer_size (map Z.of_nat lead ++ [(-1)%Z]) (numel [numel lead; n])
  = Raise (RuntimeError AmbiguousInferredDimension).
Proof.
  intros Hzero. unfold infer_size.
  rewrite scan_size_sizes. cbn [scan_size Z.eqb Pos.eqb].
  rewrite Hzero. unfold numel. simpl. reflexivity.
Qed.

(** X16. An input with a positive trailing dimension and a zero-sized
    leading dimension is refused only by the last view: by then the
    output buffer has been allocated and the kernel has been invoked. *)
Theorem empty_batch_fails_after_kernel (self : SQLinearMethod.t)
    (weights : gmap string Tensor) (weight x : Tensor)
    (lead rest : list nat) (K N : nat) (r : runtime) :
  weights !! "weight" = Some weight →
  shape x = (lead ++ [K])%list → 0 < K →
  shape weight = N :: rest →
  numel lead = 0 →
  SQLinearMethod.apply_weights self weights x None r
  = (Raise (RuntimeError AmbiguousInferredDimension),
     log (KernelInvoked (SQLinearMethod.i8cugemm self))
       (log (Allocated [0; N] torch_int32 (device x)) r)).
Proof.
  intros Hweight Hshape HK HshapeW Hzero.
  destruct (view_flatten x lead K Hshape HK (or_intror Hzero))
    as (st & Hview & _).
  rewrite (apply_weights_run self weights weight x _ lead rest [K] K N
             (numel lead) r Hweight Hshape Hview eq_refl HshapeW).
  unfold bind, lift, torch_empty, linear_a8_w8_o32_. lazy beta iota zeta.
  unfold view. cbn [shape device]. rewrite numel_zero_scan by done.
  by rewrite Hzero.
Qed.

Lemma empty_batch_fails_after_kernel_witness :
  SQLinearMethod.apply_weights (SQLinearMethod.mk 0)
    {["weight" := narrow_weight]} empty_input None idle_runtime
  = (Raise (RuntimeError AmbiguousInferredDimension),
     log (KernelInvoked 0)
       (log (Allocated [0; 3] torch_int32 cuda) idle_runtime)).
Proof.
  apply (empty_batch_fails_after_kernel (SQLinearMethod.mk 0)
           {["weight" := narrow_weight]} narrow_weight empty_input
           [0] [2] 2 3 idle_runtime).
  - apply lookup_singleton_eq.
  - reflexivity.
  - lia.
  - reflexivity.
  - reflexivity.
Defined.



Lemma view_device (t t' : Tensor) (size : list Z) :
  view t size = Ok t' → device t' = device t.
Proof.
  unfold view. destruct (infer_size _ _); [|discriminate].
  destruct (compute_stride _ _ _); [|discriminate].
  by intros [= <-].
Qed.

(** X18. Whatever its arguments and whatever its outcome, a call of
    [apply_weights] asks the runtime either for nothing, and then it has
    raised, or for one [int32] matrix on the device of the input followed
    by one invocation of the kernel of this linear method; the memory it
    never wrote is as it was. *)
Theorem apply_weights_effects (self : SQLinearMethod.t)
    (weights : gmap string Tensor) (x : Tensor) (bias : option Tensor)
    (r : runtime) :
  let out := SQLinearMethod.apply_weights self weights x bias r in
  uninit out.2 = uninit r
  ∧ ((trace out.2 = trace r ∧ ∃ e, out.1 = Raise e)
     ∨ ∃ batch n,
         trace out.2
         = (trace r ++ [Allocated [batch; n] torch_int32 (device x);
                        KernelInvoked (SQLinearMethod.i8cugemm self)])%list).
Proof.
  unfold SQLinearMethod.apply_weights, bind, lift, ret, raise.
  destruct bias as [b|]; [split; [done|left; by eauto]|].
  destruct (weights !! "weight") as [weight|]; [|split; [done|left; by eauto]].
  destruct (size_last (shape x)) as [K|]; [|split; [done|left; by eauto]].
  destruct (view x _) as [x'|] eqn:Hview; [|split; [done|left; by eauto]].
  apply view_device in Hview.
  destruct (size_first (shape x')) as [batch|];
    [|split; [done|left; by eauto]].
  destruct (size_first (shape weight)) as [n|];
    [|split; [done|left; by eauto]].
  unfold torch_empty, linear_a8_w8_o32_. cbn [fst snd].
  destruct (view _ _); cbn [fst snd log trace uninit];
    (split; [done|right; exists batch, n; by rewrite Hview, <- app_assoc]).
Qed.

(** X19. [apply_weights] reads nothing of the dictionary but the entry
    "weight": the six dequantization scales play no role in it. *)
Theorem apply_weights_reads_weight_only (self : SQLinearMethod.t)
    (weights1 weights2 : gmap string Tensor) (x : Tensor)
    (bias : option Tensor) (r : runtime) :
  weights1 !! "weight" = weights2 !! "weight" →
  SQLinearMethod.apply_weights self weights1 x bias r
  = SQLinearMethod.apply_weights self weights2 x bias r.
Proof.
  intros Hsame. unfold SQLinearMethod.apply_weights. by rewrite Hsame.
Qed.

Lemma apply_weights_reads_weight_only_witness :
  SQLinearMethod.apply_weights (SQLinearMethod.mk 0)
    {["weight" := example_weight]} example_input None idle_runtime
  = SQLinearMethod.apply_weights (SQLinearMethod.mk 0)
      (<["dequant_scale" := narrow_weight]> {["weight" := example_weight]})
      example_input None idle_runtime.
Proof.
  apply (apply_weights_reads_weight_only (SQLinearMethod.mk 0)
           {["weight" := example_weight]}
           (<["dequant_scale" := narrow_weight]>
              {["weight" := example_weight]})
           example_input None idle_runtime).
  vm_compute. reflexivity.
Defined.

(** X20. [create_weights] asks the runtime for exactly seven buffers,
    the [int8] weight on the accelerator first and then six [float32]
    scalars on the host, and never for the kernel; every tensor it
    returns has as many elements as its size says and requires no
    gradient, and only the weight carries attributes. *)
Theorem create_weights_effects (self : SQLinearMethod.t)
    (input_size_per_partition output_size_per_partition
     input_size output_size : nat) (params_dtype : torch_dtype)
    (r : runtime) :
  ∃ weights r',
    SQLinearMethod.create_weights self input_size_per_partition
      output_size_per_partition input_size output_size params_dtype r
    = (Ok weights, r')
    ∧ trace r'
      = (trace r
         ++ Allocated [output_size_per_partition; input_size_per_partition]
              torch_int8 cuda
         :: replicate 6 (Allocated [] torch_float32 cpu))%list
    ∧ uninit r' = uninit r
    ∧ ∀ name t, weights !! name = Some t →
        length (data t) = numel (shape t)
        ∧ requires_grad t = false
        ∧ (name ≠ "weight" → attrs t = ∅).
Proof.
  eexists _, _. split.
  { lazy beta iota zeta delta
      [SQLinearMethod.create_weights bind ret torch_empty torch_tensor
       nn_Parameter set_weight_attrs foldl fst snd
       shape stride storage_offset dtype device requires_grad attrs data].
    reflexivity. }
  cbn [log trace uninit]. split; [|split; [done|]].
  - rewrite <- !app_assoc. reflexivity.
  - intros name t Ht.
    repeat match type of Ht with
           | <[_ := _]> _ !! _ = Some _ =>
               apply lookup_insert_Some in Ht as [[<- <-] | [? Ht]]
           end;
      try (by rewrite lookup_empty in Ht);
      cbn [shape data requires_grad attrs];
      (split; [|done]).
    all: try reflexivity.
    by rewrite length_map, length_seq.
Qed.


